(** * i3lock: the lock state machine of [i3lock.c]

    A shallow embedding of the parts of [i3lock.c] that acquire the input
    grabs, collect the password from key events, hand it to PAM and tear
    the lock down again, followed by the properties of that code.

    Conventions.
    - A C [char] is a [Z] in [0, 256); a C string or byte array is a
      [list Z].  The static array [passwd] is a list of 256 bytes.
    - [unsigned int len] is a [Z]; every arithmetic operation the source
      performs on it is followed by the reduction modulo [2^32].
    - Everything the program asks of its surroundings (command line,
      environment, PAM, the X server) is a field of one record, [world].
      Calls whose effect matters outside the process are collected, in
      program order, in a list of [call]s.
    - The values of the constants and classification macros of the X11
      and PAM headers are those of [X11/keysymdef.h], [X11/Xutil.h],
      [X11/X.h] and [security/_pam_types.h]. *)

From stdpp Require Import base numbers list.

Local Open Scope Z_scope.

(** ** Constants of the system headers *)

Module X11.
Definition GrabSuccess : Z := 0.
Definition KeyPress : Z := 2.
Definition DPMSModeOff : Z := 3.

Definition XK_BackSpace : Z := 0xff08.
Definition XK_Return : Z := 0xff0d.
Definition XK_Escape : Z := 0xff1b.
Definition XK_Select : Z := 0xff60.
Definition XK_Break : Z := 0xff6b.
Definition XK_KP_Space : Z := 0xff80.
Definition XK_KP_Enter : Z := 0xff8d.
Definition XK_KP_F1 : Z := 0xff91.
Definition XK_KP_F4 : Z := 0xff94.
Definition XK_KP_0 : Z := 0xffb0.
Definition XK_KP_9 : Z := 0xffb9.
Definition XK_KP_Equal : Z := 0xffbd.
Definition XK_F1 : Z := 0xffbe.
Definition XK_F35 : Z := 0xffe0.
Definition XK_0 : Z := 0x30.

Definition IsKeypadKey (keysym : Z) : bool :=
  (XK_KP_Space <=? keysym) && (keysym <=? XK_KP_Equal).
Definition IsPrivateKeypadKey (keysym : Z) : bool :=
  (0x11000000 <=? keysym) && (keysym <=? 0x1100FFFF).
Definition IsPFKey (keysym : Z) : bool :=
  (XK_KP_F1 <=? keysym) && (keysym <=? XK_KP_F4).
Definition IsFunctionKey (keysym : Z) : bool :=
  (XK_F1 <=? keysym) && (keysym <=? XK_F35).
Definition IsMiscFunctionKey (keysym : Z) : bool :=
  (XK_Select <=? keysym) && (keysym <=? XK_Break).
End X11.

Module PAM.
Definition PAM_SUCCESS : Z := 0.
Definition PAM_PROMPT_ECHO_OFF : Z := 1.
Definition PAM_PROMPT_ECHO_ON : Z := 2.
Definition PAM_ERROR_MSG : Z := 3.
Definition PAM_TEXT_INFO : Z := 4.

Record pam_message := { msg_style : Z; msg : list Z }.

(** [resp] is [None] for a null pointer and [Some s] for a pointer to
    the string [s]. *)
Record pam_response := { resp : option (list Z); resp_retcode : Z }.
End PAM.

Import X11 PAM.

(** ** C helpers *)

(** Arithmetic on [unsigned int]. *)
Definition u32 (x : Z) : Z := x mod 2 ^ 32.

(** [iscntrl] of [ctype.h] in the "C" locale (the program never calls
    [setlocale]): the codes below 32 and the code 127. *)
Definition iscntrl (c : Z) : bool := (c <? 32) || (c =? 127).

(** The C string held by a byte array: the bytes before the first zero. *)
Fixpoint c_string (a : list Z) : list Z :=
  match a with
  | [] => []
  | c :: a' => if c =? 0 then [] else c :: c_string a'
  end.

(** [memcpy (dst + off, src, n)] with [n] the length of [src]. *)
Definition memcpy (dst : list Z) (off : Z) (src : list Z) : list Z :=
  list_inserts (Z.to_nat off) src dst.

(** ** The password store: [static char passwd[256]] *)

Definition sizeof_passwd : Z := 256.
Definition sizeof_buf : nat := 32.

(** ** What the process does to its surroundings *)

Inductive call :=
| XGrabPointer (r : Z)
| XGrabKeyboard (r : Z)
| usleep (usec : Z)
| XSync
| XNextEvent (r : Z)
| DPMSEnable
| DPMSForceLevel (level : Z)
| pam_authenticate (candidate : list Z) (r : Z)
| fprintf_stderr
| XBell (percent : Z)
| XUngrabPointer
| XFreePixmap
| XDestroyWindow
| XCloseDisplay.

(** ** What the surroundings answer *)

(** An event as the loop sees it: its [type], and for a key event the
    string and the key symbol that [XLookupString] translates it to. *)
Record XEvent := {
  type : Z;
  xkey_string : list Z;
  xkey_keysym : Z
}.

(** One result of [getopt_long] with its [optarg]. *)
Inductive option_char :=
| opt_v | opt_n | opt_b | opt_d
| opt_i (optarg : list Z)
| opt_c (optarg : list Z)
| opt_t
| opt_p (optarg : list Z)
| opt_unknown.

Record world := {
  getopt_long : list option_char;
  getenv_USER : bool;                 (* is USER set *)
  pam_start : Z;
  XOpenDisplay : bool;                (* did it return a display *)
  fork : Z;
  file_exists : bool;                 (* of xpm_image_path *)
  XpmReadFileToXpmImage : Z;
  XpmCreatePixmapFromXpmImage : Z;
  XCreateBitmapFromData : Z;          (* the pixmap made for the cursor *)
  grab_pointer : nat -> Z;            (* result of the i-th XGrabPointer *)
  grab_keyboard : nat -> Z;           (* result of the i-th XGrabKeyboard *)
  DPMSCapable : bool;
  authenticate : nat -> list Z -> Z;  (* result of the i-th pam_authenticate,
                                         asking for the string in passwd *)
  events : list XEvent                (* XNextEvent returns 0 for each of
                                         these in turn, then non-zero *)
}.

(** ** [conv_callback]: the conversation function given to PAM *)

(** The two allocation functions the callback uses: whether [calloc]
    returns memory, and whether the [strdup] made for message [c] does. *)
Record allocator := {
  calloc : bool;
  strdup : nat -> bool
}.

(** The callback returns [r] and leaves [star_resp] in [*resp], or it
    runs into undefined behaviour at message [c].

    [resp] points to one pointer of the caller, [*resp], in which the
    callback stores the array it allocates.  [resp[c]] is the pointer
    stored [c] pointers after [*resp]: for [c = 0] it is the array, so
    [resp[0]->] reaches the first record of the array; for [c >= 1] it
    lies outside the object [resp] points to, and reading it has no
    defined meaning. *)
Inductive conv_result :=
| conv_return (r : Z) (star_resp : option (list pam_response))
| conv_undefined (c : nat).

Definition set_resp_retcode (v : Z) (r : pam_response) : pam_response :=
  {| resp := resp r; resp_retcode := v |}.
Definition set_resp (s : option (list Z)) (r : pam_response) : pam_response :=
  {| resp := s; resp_retcode := resp_retcode r |}.

(** The [for] loop of the callback from message number [c] on, [msg]
    being the messages not yet looked at and [arr] the allocated array. *)
Fixpoint conv_loop (al : allocator) (passwd : list Z)
    (msg : list pam_message) (c : nat) (arr : list pam_response) : conv_result :=
  match msg with
  | [] => conv_return 0 (Some arr)
  | m :: msg' =>
      if negb (msg_style m =? PAM_PROMPT_ECHO_OFF) &&
         negb (msg_style m =? PAM_PROMPT_ECHO_ON)
      then conv_loop al passwd msg' (S c) arr
      else
        match c with
        | O =>
            let arr := alter (set_resp_retcode 0) O arr in
            if strdup al c
            then conv_loop al passwd msg' (S c)
                   (alter (set_resp (Some (c_string passwd))) O arr)
            else conv_return 1 (Some (alter (set_resp None) O arr))
        | S _ => conv_undefined c
        end
  end.

Definition conv_callback (al : allocator) (passwd : list Z)
    (msg : list pam_message) (star_resp : option (list pam_response)) : conv_result :=
  let num_msg := length msg in
  if (num_msg =? 0)%nat then conv_return 1 star_resp
  else if negb (calloc al) then conv_return 1 None
  else conv_loop al passwd msg 0
         (replicate num_msg {| resp := None; resp_retcode := 0 |}).

(** ** The state of [main] while the screen is locked *)

(** [auth_calls] counts the calls of [pam_authenticate] made so far; the
    source has no such variable, the count only selects the answer of the
    [world]. *)
Record lock := {
  passwd : list Z;
  len : Z;
  running : bool;
  auth_calls : nat
}.

(** Flags set by the command line. *)
Record flags := {
  dont_fork : bool;
  beep : bool;
  dpms : bool;
  xpm_image : bool;
  tiling : bool;
  curs_is_null : bool
}.

(** ** Acquiring the grabs *)

(** [for (len = n; len; len--) { if (grab () == GrabSuccess) break;
    usleep (1000); }] where the grab is [XGrabPointer] or [XGrabKeyboard]
    ([mk] records which) and [i] numbers its calls.  The result is the
    value of [len] after the loop. *)
Fixpoint grab_loop (mk : Z -> call) (grab : nat -> Z) (i : nat) (n : nat)
    : nat * list call :=
  match n with
  | O => (O, [])
  | S n' =>
      let r := grab i in
      if r =? GrabSuccess then (n, [mk r])
      else
        let '(l, t) := grab_loop mk grab (S i) n' in
        (l, mk r :: usleep 1000 :: t)
  end.

(** ** The event loop *)

(** [XLookupString (&ev.xkey, buf, sizeof buf, &ksym, 0)]: at most
    [sizeof buf] bytes are stored in [buf]; [num] is their number. *)
Definition XLookupString (ev : XEvent) (nbytes : nat) : list Z * Z :=
  (take nbytes (xkey_string ev), xkey_keysym ev).

(** The keypad keys that are taken for keys of the main block. *)
Definition keypad_ksym (ksym : Z) : Z :=
  if IsKeypadKey ksym then
    if ksym =? XK_KP_Enter then XK_Return
    else if (XK_KP_0 <=? ksym) && (ksym <=? XK_KP_9) then (ksym - XK_KP_0) + XK_0
    else ksym
  else ksym.

Definition ignored_ksym (ksym : Z) : bool :=
  IsFunctionKey ksym || IsKeypadKey ksym || IsMiscFunctionKey ksym ||
  IsPFKey ksym || IsPrivateKeypadKey ksym.

(** [case XK_Return]. *)
Definition case_Return (f : flags) (w : world) (st : lock) : lock * list call :=
  let passwd' := <[Z.to_nat (len st) := 0]> (passwd st) in
  if len st =? 0 then
    ({| passwd := passwd'; len := len st; running := running st;
        auth_calls := auth_calls st |}, [])
  else
    let ret := authenticate w (auth_calls st) (c_string passwd') in
    if ret =? PAM_SUCCESS then
      ({| passwd := passwd'; len := 0; running := false;
          auth_calls := S (auth_calls st) |},
       [pam_authenticate (c_string passwd') ret])
    else
      ({| passwd := passwd'; len := 0; running := running st;
          auth_calls := S (auth_calls st) |},
       pam_authenticate (c_string passwd') ret :: fprintf_stderr ::
       (if beep f then [XBell 100] else [])).

(** [case XK_Escape]. *)
Definition case_Escape (st : lock) : lock * list call :=
  ({| passwd := passwd st; len := 0; running := running st;
      auth_calls := auth_calls st |}, []).

(** [case XK_BackSpace]. *)
Definition case_BackSpace (st : lock) : lock * list call :=
  if len st >? 0 then
    ({| passwd := passwd st; len := u32 (len st - 1); running := running st;
        auth_calls := auth_calls st |}, [])
  else (st, []).

(** [default]: the bytes [buf] that [XLookupString] stored, [num] many. *)
Definition case_default (st : lock) (buf : list Z) : lock * list call :=
  let num := Z.of_nat (length buf) in
  if negb (num =? 0) && negb (iscntrl (nth O buf 0)) &&
     (u32 (len st + num) <? sizeof_passwd)
  then
    ({| passwd := memcpy (passwd st) (len st) buf; len := u32 (len st + num);
        running := running st; auth_calls := auth_calls st |}, [])
  else (st, []).

(** What the loop does with a [KeyPress] event. *)
Definition key_press (f : flags) (w : world) (st : lock) (ev : XEvent)
    : lock * list call :=
  let '(buf, ksym) := XLookupString ev sizeof_buf in
  let ksym := keypad_ksym ksym in
  if ignored_ksym ksym then (st, [])
  else if ksym =? XK_Return then case_Return f w st
  else if ksym =? XK_Escape then case_Escape st
  else if ksym =? XK_BackSpace then case_BackSpace st
  else case_default st buf.

(** The calls made at the head of the loop body. *)
Definition dpms_calls (f : flags) (w : world) (st : lock) : list call :=
  if (len st =? 0) && dpms f && DPMSCapable w
  then [DPMSEnable; DPMSForceLevel DPMSModeOff]
  else [].

(** The body of the [while] loop for the event [ev]. *)
Definition loop_body (f : flags) (w : world) (st : lock) (ev : XEvent)
    : lock * list call :=
  let t := dpms_calls f w st in
  if negb (type ev =? KeyPress) then (st, t)
  else
    let '(st', t') := key_press f w st ev in
    (st', t ++ t').

(** [while (running && !XNextEvent (dpy, &ev)) ...] over the events [evs]
    that the server still has to deliver. *)
Fixpoint event_loop (f : flags) (w : world) (st : lock) (evs : list XEvent)
    : lock * list call :=
  if running st then
    match evs with
    | [] => (st, [XNextEvent 1])
    | ev :: evs' =>
        let '(st', t) := loop_body f w st ev in
        let '(st'', t') := event_loop f w st' evs' in
        (st'', XNextEvent 0 :: t ++ t')
    end
  else (st, []).

(** ** [main] *)

(** The defaults: fork, do not beep, do not turn off the monitor, and
    the invisible cursor. *)
Definition default_flags : flags :=
  {| dont_fork := false; beep := false; dpms := false; xpm_image := false;
     tiling := false; curs_is_null := false |}.

Definition isxdigit (c : Z) : bool :=
  ((48 <=? c) && (c <=? 57)) || ((97 <=? c) && (c <=? 102)) ||
  ((65 <=? c) && (c <=? 70)).

(** The test made on the argument of [-c]: after a leading [#] is
    skipped, [strlen (arg) != 6 || sscanf (arg, "%06[0-9a-fA-F]", color) != 1];
    [sscanf] converts as soon as the first character is in the set. *)
Definition color_is_invalid (optarg : list Z) : bool :=
  let arg := match optarg with
             | 35 :: arg' => arg'
             | _ => optarg
             end in
  negb (length (c_string arg) =? 6)%nat || negb (isxdigit (nth O arg 0)).

Definition str_default : list Z := [100; 101; 102; 97; 117; 108; 116].
Definition str_win : list Z := [119; 105; 110].

Definition list_Z_eqb (a b : list Z) : bool := bool_decide (a = b).

(** The [switch] on one option: [inl code] when [errx (code, ...)] ends
    the process, the new flags otherwise. *)
Definition set_option (f : flags) (opt : option_char) : Z + flags :=
  match opt with
  | opt_v => inl 0
  | opt_n => inr {| dont_fork := true; beep := beep f; dpms := dpms f;
                    xpm_image := xpm_image f; tiling := tiling f;
                    curs_is_null := curs_is_null f |}
  | opt_b => inr {| dont_fork := dont_fork f; beep := true; dpms := dpms f;
                    xpm_image := xpm_image f; tiling := tiling f;
                    curs_is_null := curs_is_null f |}
  | opt_d => inr {| dont_fork := dont_fork f; beep := beep f; dpms := true;
                    xpm_image := xpm_image f; tiling := tiling f;
                    curs_is_null := curs_is_null f |}
  | opt_i _ => inr {| dont_fork := dont_fork f; beep := beep f; dpms := dpms f;
                      xpm_image := true; tiling := tiling f;
                      curs_is_null := curs_is_null f |}
  | opt_c optarg => if color_is_invalid optarg then inl 1 else inr f
  | opt_t => inr {| dont_fork := dont_fork f; beep := beep f; dpms := dpms f;
                    xpm_image := xpm_image f; tiling := true;
                    curs_is_null := curs_is_null f |}
  | opt_p optarg =>
      if list_Z_eqb (c_string optarg) str_default then
        inr {| dont_fork := dont_fork f; beep := beep f; dpms := dpms f;
               xpm_image := xpm_image f; tiling := tiling f;
               curs_is_null := true |}
      else if list_Z_eqb (c_string optarg) str_win then
        inr {| dont_fork := dont_fork f; beep := beep f; dpms := dpms f;
               xpm_image := xpm_image f; tiling := tiling f;
               curs_is_null := false |}
      else inr f
  | opt_unknown => inl 1
  end.

(** The [while] loop over the results of [getopt_long]. *)
Fixpoint parse_options (f : flags) (opts : list option_char) : Z + flags :=
  match opts with
  | [] => inr f
  | opt :: opts' =>
      match set_option f opt with
      | inl code => inl code
      | inr f' => parse_options f' opts'
      end
  end.

(** The pixmap of the cursor, [0] when there is no cursor to make. *)
Definition px_curs (f : flags) (w : world) : Z :=
  if curs_is_null f then 0 else XCreateBitmapFromData w.

(** Reading the background image: [Some 1] when [main] returns 1 there. *)
Definition load_image (f : flags) (w : world) : option Z :=
  if xpm_image f && file_exists w then
    if negb (XpmReadFileToXpmImage w =? 0) then Some 1
    else if negb (XpmCreatePixmapFromXpmImage w =? 0) then Some 1
    else None
  else None.

(** The two grab loops: the value of [running] after them and the calls
    they make. *)
Definition acquire_grabs (w : world) : bool * list call :=
  let '(len1, t1) := grab_loop XGrabPointer (grab_pointer w) O 1000 in
  if true && (0 <? len1)%nat then
    let '(len2, t2) := grab_loop XGrabKeyboard (grab_keyboard w) O 1000 in
    ((0 <? len2)%nat, t1 ++ t2)
  else (false, t1).

(** The calls after the event loop. *)
Definition teardown (f : flags) (w : world) : list call :=
  XUngrabPointer ::
  (if negb (px_curs f w =? 0) then [XFreePixmap; XFreePixmap] else []) ++
  [XDestroyWindow; XCloseDisplay].

(** [passwd] has static storage: all its bytes are zero at the start. *)
Definition passwd_init : list Z := replicate (Z.to_nat sizeof_passwd) 0.

(** [main] from the first grab loop to its last [return]. *)
Definition lock_screen (f : flags) (w : world) : Z * list call :=
  let '(run, t1) := acquire_grabs w in
  let st := {| passwd := passwd_init; len := 0; running := run;
               auth_calls := O |} in
  let '(_, t2) := event_loop f w st (events w) in
  (0, t1 ++ XSync :: t2 ++ teardown f w).

(** [main] up to the first grab loop: [inl code] when the process ends
    there with that exit status, the flags otherwise. *)
Definition startup (w : world) : Z + flags :=
  match parse_options default_flags (getopt_long w) with
  | inl code => inl code
  | inr f =>
      if negb (getenv_USER w) then inl 1
      else if negb (pam_start w =? PAM_SUCCESS) then inl 1
      else if negb (XOpenDisplay w) then inl 1
      else if negb (dont_fork f) && negb (fork w =? 0) then inl 0
      else
        match load_image f w with
        | Some code => inl code
        | None => inr f
        end
  end.

(** [main]: the exit status of the process and the calls it made. *)
Definition main (w : world) : Z * list call :=
  match startup w with
  | inl code => (code, [])
  | inr f => lock_screen f w
  end.

(** ** Observations on states and on lists of calls *)

(** The store is the 256 byte array and [len] an index into it that
    leaves room for the terminating zero. *)
Definition store_ok (st : lock) : Prop :=
  length (passwd st) = Z.to_nat sizeof_passwd /\ 0 <= len st < sizeof_passwd.

(** The event is a key press that the loop takes for the Return key. *)
Definition is_Return_press (ev : XEvent) : Prop :=
  type ev = KeyPress /\ keypad_ksym (xkey_keysym ev) = XK_Return.

(** The event is a key press that reaches the [default] case. *)
Definition is_default_press (ev : XEvent) : Prop :=
  type ev = KeyPress /\
  ignored_ksym (keypad_ksym (xkey_keysym ev)) = false /\
  keypad_ksym (xkey_keysym ev) <> XK_Return /\
  keypad_ksym (xkey_keysym ev) <> XK_Escape /\
  keypad_ksym (xkey_keysym ev) <> XK_BackSpace.

(** The message is a prompt that the callback answers. *)
Definition echo_prompt (m : pam_message) : bool :=
  (msg_style m =? PAM_PROMPT_ECHO_OFF) || (msg_style m =? PAM_PROMPT_ECHO_ON).

Definition is_grab (c : call) : bool :=
  match c with XGrabPointer _ | XGrabKeyboard _ => true | _ => false end.
Definition is_usleep (c : call) : bool :=
  match c with usleep _ => true | _ => false end.
Definition is_dpms (c : call) : bool :=
  match c with DPMSEnable | DPMSForceLevel _ => true | _ => false end.
Definition is_force_level (c : call) : bool :=
  match c with DPMSForceLevel _ => true | _ => false end.
Definition is_auth (c : call) : bool :=
  match c with pam_authenticate _ _ => true | _ => false end.
Definition is_unlock (c : call) : bool :=
  match c with pam_authenticate _ r => r =? PAM_SUCCESS | _ => false end.
Definition is_next_event (c : call) : bool :=
  match c with XNextEvent _ => true | _ => false end.

Definition is_keyboard_grab (c : call) : bool :=
  match c with XGrabKeyboard _ => true | _ => false end.

(** The calls that the event loop makes. *)
Definition is_loop_call (c : call) : bool :=
  match c with
  | XNextEvent _ | DPMSEnable | DPMSForceLevel _ | pam_authenticate _ _
  | fprintf_stderr | XBell _ => true
  | _ => false
  end.

(** How many calls of a list satisfy [p]. *)
Fixpoint count (p : call -> bool) (t : list call) : nat :=
  match t with
  | [] => O
  | c :: t' => if p c then S (count p t') else count p t'
  end.

(** The grab discipline, checked along a list of calls: [p] and [k] say
    whether the pointer and the keyboard are held.  [XGrabKeyboard] may
    only be called while the pointer is held, [XNextEvent] only while
    both are. *)
Fixpoint grab_order (p k : bool) (t : list call) : bool :=
  match t with
  | [] => true
  | XGrabPointer r :: t' => grab_order (p || (r =? GrabSuccess)) k t'
  | XGrabKeyboard r :: t' => p && grab_order p (k || (r =? GrabSuccess)) t'
  | XNextEvent _ :: t' => p && k && grab_order p k t'
  | XUngrabPointer :: t' => grab_order false k t'
  | XCloseDisplay :: t' => grab_order false false t'
  | _ :: t' => grab_order p k t'
  end.

(** A grab fails on each of the 1000 attempts the loop makes. *)
Definition exhausted (grab : nat -> Z) : Prop :=
  forall i : nat, (i < 1000)%nat -> grab i <> GrabSuccess.

(** ** Sample surroundings *)

Definition key (ksym : Z) (s : list Z) : XEvent :=
  {| type := KeyPress; xkey_string := s; xkey_keysym := ksym |}.

(** An [Expose] event. *)
Definition expose : XEvent :=
  {| type := 12; xkey_string := []; xkey_keysym := 0 |}.

Definition always (r : Z) (_ : nat) : Z := r.

(** [AlreadyGrabbed] of [X11/X.h]. *)
Definition AlreadyGrabbed : Z := 1.

(** [PAM_AUTH_ERR] of [security/_pam_types.h]. *)
Definition PAM_AUTH_ERR : Z := 7.

(** A run in the foreground in which startup finds nothing wrong. *)
Definition sample_world (opts : list option_char) (gp gk : nat -> Z)
    (auth : nat -> list Z -> Z) (evs : list XEvent) : world :=
  {| getopt_long := opt_n :: opts; getenv_USER := true;
     pam_start := PAM_SUCCESS; XOpenDisplay := true; fork := 0;
     file_exists := false; XpmReadFileToXpmImage := 0;
     XpmCreatePixmapFromXpmImage := 0; XCreateBitmapFromData := 1;
     grab_pointer := gp; grab_keyboard := gk; DPMSCapable := true;
     authenticate := auth; events := evs |}.

(** Both grabs succeed at once; PAM rejects, or accepts, every password. *)
Definition world_reject (evs : list XEvent) : world :=
  sample_world [] (always GrabSuccess) (always GrabSuccess)
    (fun _ _ => PAM_AUTH_ERR) evs.
Definition world_accept (evs : list XEvent) : world :=
  sample_world [] (always GrabSuccess) (always GrabSuccess)
    (fun _ _ => PAM_SUCCESS) evs.

(** The state after the grabs succeeded, and after [a] was typed. *)
Definition st_locked : lock :=
  {| passwd := passwd_init; len := 0; running := true; auth_calls := O |}.
Definition st_typed_a : lock :=
  {| passwd := 97 :: replicate 255 0; len := 1; running := true;
     auth_calls := O |}.
Definition st_full : lock :=
  {| passwd := replicate 255 97 ++ [0]; len := 255; running := true;
     auth_calls := O |}.

(** ** Further observations *)

(** The password typed so far: the first [len] bytes of [passwd]. *)
Definition typed (st : lock) : list Z := take (Z.to_nat (len st)) (passwd st).

(** The event is a key press that the loop takes for BackSpace, for
    Escape. *)
Definition is_BackSpace_press (ev : XEvent) : Prop :=
  type ev = KeyPress /\ keypad_ksym (xkey_keysym ev) = XK_BackSpace.
Definition is_Escape_press (ev : XEvent) : Prop :=
  type ev = KeyPress /\ keypad_ksym (xkey_keysym ev) = XK_Escape.

(** While something is typed, the first byte of [passwd] is not a
    control character. *)
Definition first_byte_typed (st : lock) : Prop :=
  len st <> 0 ->
  match passwd st with
  | c :: _ => iscntrl c = false
  | [] => False
  end.

Definition is_bell (c : call) : bool :=
  match c with XBell _ => true | _ => false end.
Definition is_stderr (c : call) : bool :=
  match c with fprintf_stderr => true | _ => false end.
Definition is_failed_auth (c : call) : bool :=
  match c with pam_authenticate _ r => negb (r =? PAM_SUCCESS) | _ => false end.

(** The call is not a [pam_authenticate] for the empty string. *)
Definition auth_nonempty (c : call) : bool :=
  match c with
  | pam_authenticate [] _ => false
  | _ => true
  end.

(** ** The background colour: [get_colorpixel] and the option [-c] *)

(** [isspace] of [ctype.h] in the "C" locale. *)
Definition isspace (c : Z) : bool := (c =? 32) || ((9 <=? c) && (c <=? 13)).

(** The value of a hexadecimal digit. *)
Definition hex_digit (c : Z) : option Z :=
  if (48 <=? c) && (c <=? 57) then Some (c - 48)
  else if (97 <=? c) && (c <=? 102) then Some (c - 87)
  else if (65 <=? c) && (c <=? 70) then Some (c - 55)
  else None.

(** The digits that [strtol] converts, [acc] being the value so far. *)
Fixpoint strtol_digits (acc : Z) (s : list Z) : Z :=
  match s with
  | [] => acc
  | c :: s' =>
      match hex_digit c with
      | Some d => strtol_digits (16 * acc + d) s'
      | None => acc
      end
  end.

Fixpoint skip_space (s : list Z) : list Z :=
  match s with
  | [] => []
  | c :: s' => if isspace c then skip_space s' else s
  end.

(** [strtol (s, NULL, 16)]: white space, an optional sign, an optional
    [0x] that has a digit after it, then digits up to the first
    character that is none; 0 when there is no digit.  Both uses are on
    strings of at most two characters, so the result is far from the
    bounds of [long]. *)
Definition strtol (s : list Z) : Z :=
  let s1 := skip_space s in
  let negative := match s1 with c :: _ => c =? 45 | [] => false end in
  let s2 := match s1 with
            | c :: r => if (c =? 45) || (c =? 43) then r else s1
            | [] => s1
            end in
  let s3 := match s2 with
            | z :: x :: d :: r =>
                if (z =? 48) && ((x =? 120) || (x =? 88)) && isxdigit d
                then d :: r else s2
            | _ => s2
            end in
  let v := strtol_digits 0 s3 in
  if negative then - v else v.

(** [get_colorpixel]: [hex] is read at the indices 0 to 5; each pair of
    characters is copied into a string of its own and converted. *)
Definition get_colorpixel (hex : list Z) : Z :=
  let strgroups (i : nat) := c_string [nth (2 * i) hex 0; nth (2 * i + 1) hex 0] in
  let rgb16 (i : nat) := u32 (strtol (strgroups i)) in
  u32 (u32 (u32 (Z.shiftl (rgb16 0%nat) 16) + u32 (Z.shiftl (rgb16 1%nat) 8))
       + rgb16 2%nat).

(** [char color[7] = "ffffff"]. *)
Definition color_init : list Z := [102; 102; 102; 102; 102; 102; 0].

(** The longest run of at most [n] hexadecimal digits at the head of [s]. *)
Fixpoint hex_prefix (n : nat) (s : list Z) : list Z :=
  match n, s with
  | S n', c :: s' => if isxdigit c then c :: hex_prefix n' s' else []
  | _, _ => []
  end.

(** [sscanf (arg, "%06[0-9a-fA-F]", color)]: the value returned and the
    array [color] afterwards.  On the empty string the result is [EOF];
    when the first character is no digit nothing is converted; else the
    digits found, six at most, are stored with a zero byte after them. *)
Definition sscanf_color (arg color : list Z) : Z * list Z :=
  match c_string arg with
  | [] => (-1, color)
  | c :: _ =>
      if isxdigit c
      then (1, list_inserts O (hex_prefix 6 (c_string arg) ++ [0]) color)
      else (0, color)
  end.

(** [color] after the loop over the options; the loop ends at the first
    option that ends the process. *)
Fixpoint parse_color (color : list Z) (opts : list option_char) : list Z :=
  match opts with
  | [] => color
  | opt_c optarg :: opts' =>
      let arg := match optarg with
                 | 35 :: arg' => arg'
                 | _ => optarg
                 end in
      if negb (length (c_string arg) =? 6)%nat then color
      else
        let '(r, color') := sscanf_color arg color in
        if negb (r =? 1) then color' else parse_color color' opts'
  | opt_v :: _ => color
  | opt_unknown :: _ => color
  | _ :: opts' => parse_color color opts'
  end.

(** [wa.background_pixel]. *)
Definition background_pixel (w : world) : Z :=
  get_colorpixel (parse_color color_init (getopt_long w)).

(** Each byte of [color] is a hexadecimal digit or zero. *)
Definition color_ok (color : list Z) : Prop :=
  length color = 7%nat /\ Forall (fun c => isxdigit c = true \/ c = 0) color.

(** ** The options *)

(** The option does not end the process. *)
Definition accepted_option (opt : option_char) : bool :=
  match opt with
  | opt_v | opt_unknown => false
  | opt_c optarg => negb (color_is_invalid optarg)
  | _ => true
  end.

Definition is_opt_n (opt : option_char) : bool :=
  match opt with opt_n => true | _ => false end.
Definition is_opt_b (opt : option_char) : bool :=
  match opt with opt_b => true | _ => false end.
Definition is_opt_d (opt : option_char) : bool :=
  match opt with opt_d => true | _ => false end.
Definition is_opt_i (opt : option_char) : bool :=
  match opt with opt_i _ => true | _ => false end.
Definition is_opt_t (opt : option_char) : bool :=
  match opt with opt_t => true | _ => false end.

(** The exit status with which an option that is not accepted ends the
    process. *)
Definition rejected_status (opt : option_char) : Z :=
  match opt with opt_v => 0 | _ => 1 end.

(** * Properties *)

(** ** Arithmetic and the dispatch of key presses *)

Lemma u32_small (x : Z) : 0 <= x < 2 ^ 32 -> u32 x = x.
Proof. intros H. unfold u32. apply Z.mod_small. exact H. Qed.

Lemma length_passwd_init : length passwd_init = Z.to_nat sizeof_passwd.
Proof. unfold passwd_init. apply length_replicate. Qed.


Lemma loop_body_other (f : flags) (w : world) (st : lock) (ev : XEvent) :
  type ev <> KeyPress -> loop_body f w st ev = (st, dpms_calls f w st).
Proof.
  intros H. unfold loop_body.
  destruct (Z.eqb_spec (type ev) KeyPress) as [E | _]; [contradiction | reflexivity].
Qed.

Lemma loop_body_key (f : flags) (w : world) (st : lock) (ev : XEvent) :
  type ev = KeyPress ->
  loop_body f w st ev =
    (fst (key_press f w st ev), dpms_calls f w st ++ snd (key_press f w st ev)).
Proof.
  intros H. unfold loop_body. rewrite H, Z.eqb_refl. simpl.
  destruct (key_press f w st ev); reflexivity.
Qed.

Lemma key_press_Return (f : flags) (w : world) (st : lock) (ev : XEvent) :
  keypad_ksym (xkey_keysym ev) = XK_Return ->
  key_press f w st ev = case_Return f w st.
Proof. intros H. unfold key_press. simpl. rewrite H. reflexivity. Qed.

Lemma key_press_default (f : flags) (w : world) (st : lock) (ev : XEvent) :
  is_default_press ev ->
  key_press f w st ev = case_default st (take sizeof_buf (xkey_string ev)).
Proof.
  intros (_ & Hi & HR & HE & HB). unfold key_press. simpl. rewrite Hi.
  destruct (Z.eqb_spec (keypad_ksym (xkey_keysym ev)) XK_Return); [contradiction |].
  destruct (Z.eqb_spec (keypad_ksym (xkey_keysym ev)) XK_Escape); [contradiction |].
  destruct (Z.eqb_spec (keypad_ksym (xkey_keysym ev)) XK_BackSpace); [contradiction |].
  reflexivity.
Qed.

Lemma dpms_calls_typing (f : flags) (w : world) (st : lock) :
  len st <> 0 -> dpms_calls f w st = [].
Proof.
  intros H. unfold dpms_calls.
  destruct (Z.eqb_spec (len st) 0); [contradiction | reflexivity].
Qed.

(** ** The password store *)

(** What [case default] does, in full: it appends exactly when the
    string is not empty, does not start with a control character, and
    ends before the last byte of the store. *)
Lemma case_default_spec (st : lock) (buf : list Z) :
  store_ok st -> (length buf <= sizeof_buf)%nat ->
  let num := Z.of_nat (length buf) in
  (buf <> [] /\ iscntrl (nth O buf 0) = false /\ len st + num < sizeof_passwd ->
     case_default st buf =
       ({| passwd := memcpy (passwd st) (len st) buf; len := len st + num;
           running := running st; auth_calls := auth_calls st |}, [])) /\
  (buf = [] \/ iscntrl (nth O buf 0) = true \/ sizeof_passwd <= len st + num ->
     case_default st buf = (st, [])).
Proof.
  intros [_ Hl] Hb num. unfold sizeof_buf in Hb. unfold sizeof_passwd in *.
  assert (Hu : u32 (len st + num) = len st + num).
  { apply u32_small. unfold num. change (2 ^ 32) with 4294967296. lia. }
  unfold case_default. fold num. rewrite Hu. unfold sizeof_passwd. split.
  - intros (Hne & Hc & Hr). rewrite Hc.
    destruct (Z.eqb_spec num 0) as [E | _].
    + destruct buf; [congruence | unfold num in E; simpl in E; lia].
    + destruct (Z.ltb_spec (len st + num) 256); [reflexivity | lia].
  - intros [He | [Hc | Hr]].
    + subst buf. reflexivity.
    + rewrite Hc. rewrite andb_false_r. reflexivity.
    + destruct (Z.ltb_spec (len st + num) 256); [lia |].
      rewrite andb_false_r. reflexivity.
Qed.

Lemma memcpy_length (dst : list Z) (off : Z) (src : list Z) :
  length (memcpy dst off src) = length dst.
Proof. unfold memcpy. apply length_inserts. Qed.

Lemma case_Return_store_ok (f : flags) (w : world) (st : lock) :
  store_ok st -> store_ok (fst (case_Return f w st)).
Proof.
  intros [Hp Hl]. unfold case_Return, store_ok, sizeof_passwd in *.
  destruct (Z.eqb_spec (len st) 0) as [E | E]; simpl.
  - rewrite length_insert. split; [exact Hp | lia].
  - destruct (authenticate w _ _ =? PAM_SUCCESS); simpl;
      rewrite length_insert; (split; [exact Hp | lia]).
Qed.

Lemma case_BackSpace_store_ok (st : lock) :
  store_ok st -> store_ok (fst (case_BackSpace st)).
Proof.
  intros [Hp Hl]. unfold case_BackSpace, store_ok, sizeof_passwd in *.
  destruct (Z.gtb_spec (len st) 0) as [E | E]; simpl; [| split; [exact Hp | lia]].
  rewrite u32_small by (change (2 ^ 32) with 4294967296; lia).
  split; [exact Hp | lia].
Qed.

Lemma case_default_store_ok (st : lock) (buf : list Z) :
  store_ok st -> store_ok (fst (case_default st buf)).
Proof.
  intros [Hp Hl]. unfold case_default.
  destruct (_ && _ && (u32 _ <? sizeof_passwd)) eqn:E; simpl; [| split; assumption].
  apply andb_prop in E as [_ E]. apply Z.ltb_lt in E.
  split; simpl; [rewrite memcpy_length; exact Hp |].
  split; [apply Z.mod_pos_bound; reflexivity | exact E].
Qed.

Lemma key_press_store_ok (f : flags) (w : world) (st : lock) (ev : XEvent) :
  store_ok st -> store_ok (fst (key_press f w st ev)).
Proof.
  intros H. unfold key_press. simpl.
  destruct (ignored_ksym _); [exact H |].
  destruct (_ =? XK_Return); [apply case_Return_store_ok; exact H |].
  destruct (_ =? XK_Escape).
  { destruct H as [Hp Hl]. split; simpl; [exact Hp | unfold sizeof_passwd; lia]. }
  destruct (_ =? XK_BackSpace); [apply case_BackSpace_store_ok; exact H |].
  apply case_default_store_ok; exact H.
Qed.

Lemma loop_body_store_ok (f : flags) (w : world) (st : lock) (ev : XEvent) :
  store_ok st -> store_ok (fst (loop_body f w st ev)).
Proof.
  intros H. destruct (decide (type ev = KeyPress)) as [E | E].
  - rewrite loop_body_key by exact E. simpl. apply key_press_store_ok; exact H.
  - rewrite loop_body_other by exact E. exact H.
Qed.

Lemma event_loop_store_ok (f : flags) (w : world) (evs : list XEvent) :
  forall st : lock, store_ok st -> store_ok (fst (event_loop f w st evs)).
Proof.
  induction evs as [| ev evs IH]; intros st H; simpl.
  - destruct (running st); exact H.
  - destruct (running st); [| exact H].
    pose proof (loop_body_store_ok f w st ev H) as H1.
    destruct (loop_body f w st ev) as [st1 t1]. simpl in H1.
    specialize (IH st1 H1).
    destruct (event_loop f w st1 evs) as [st2 t2]. exact IH.
Qed.

(** The states that [main] goes through satisfy [store_ok]: the event
    loop starts with the zeroed array and [len = 0]. *)
Lemma lock_screen_store_ok (f : flags) (w : world) (run : bool)
    (evs : list XEvent) :
  store_ok (fst (event_loop f w
                   {| passwd := passwd_init; len := 0; running := run;
                      auth_calls := O |} evs)).
Proof.
  apply event_loop_store_ok.
  split; [apply length_passwd_init | unfold sizeof_passwd; simpl; lia].
Qed.

(** [memcpy] inside the bounds of [dst] replaces the bytes from [off] on
    by [src] and nothing else. *)
Lemma memcpy_take_drop (dst : list Z) (off : Z) (src : list Z) :
  0 <= off -> (Z.to_nat off + length src <= length dst)%nat ->
  memcpy dst off src =
    take (Z.to_nat off) dst ++ src ++ drop (Z.to_nat off + length src) dst.
Proof.
  intros H0 Hfit. unfold memcpy.
  set (n := Z.to_nat off) in *.
  rewrite <- (take_drop n dst) at 1.
  replace n with (length (take n dst) + 0)%nat at 1
    by (rewrite length_take; lia).
  rewrite list_inserts_app_r. f_equal.
  rewrite <- (take_drop (length src) (drop n dst)) at 1.
  rewrite list_inserts_0_r by (rewrite length_take, length_drop; lia).
  rewrite drop_drop. reflexivity.
Qed.

(** C5 (as the code has it).  Appending a string of [XLookupString]
    that is not empty and does not start with a control character
    changes nothing at all when [len + num >= sizeof passwd], and
    otherwise copies all its bytes to position [len] and adds [num] to
    [len].  One byte stays free for the terminating zero, so [len] stays
    below [sizeof passwd], after one append and after any sequence of
    events. *)
Theorem append_rejects_from_capacity (st : lock) (buf : list Z) :
  store_ok st -> (0 < length buf <= sizeof_buf)%nat ->
  iscntrl (nth O buf 0) = false ->
  let num := Z.of_nat (length buf) in
  let st' := fst (case_default st buf) in
  (sizeof_passwd <= len st + num -> st' = st) /\
  (len st + num < sizeof_passwd ->
     len st' = len st + num /\
     passwd st' =
       take (Z.to_nat (len st)) (passwd st) ++ buf ++
       drop (Z.to_nat (len st) + length buf) (passwd st)) /\
  len st' < sizeof_passwd /\
  (forall (f : flags) (w : world) (evs : list XEvent),
     len (fst (event_loop f w st evs)) < sizeof_passwd).
Proof.
  intros Hok Hb Hc num st'.
  destruct (case_default_spec st buf Hok (proj2 Hb)) as [Happ Hrej].
  fold num in Happ, Hrej.
  split; [| split; [| split]].
  - intros Hfull. unfold st'. rewrite Hrej by (right; right; exact Hfull).
    reflexivity.
  - intros Hroom. unfold st'. rewrite Happ; simpl.
    + split; [reflexivity |]. destruct Hok as [Hp Hl].
      apply memcpy_take_drop; [lia |].
      rewrite Hp. unfold sizeof_passwd in *. unfold num in Hroom. lia.
    + split; [| split; [exact Hc | exact Hroom]].
      intros ->. simpl in Hb. lia.
  - apply (case_default_store_ok st buf Hok).
  - intros f w evs. apply (event_loop_store_ok f w evs st Hok).
Qed.

Lemma append_rejects_from_capacity_witness :
  len (fst (case_default st_typed_a [98; 99])) = 3 /\
  len (fst (case_default st_full [98])) = 255.
Proof.
  assert (Hok : store_ok st_typed_a) by (split; [reflexivity | simpl; unfold sizeof_passwd; lia]).
  assert (Hb : (0 < length [98; 99] <= sizeof_buf)%nat) by (unfold sizeof_buf; simpl; lia).
  destruct (append_rejects_from_capacity st_typed_a [98; 99] Hok Hb eq_refl)
    as (_ & Happ & _).
  split; [apply Happ; simpl; unfold sizeof_passwd; lia | reflexivity].
Defined.

(** C5 (as the spec has it) fails at the last byte: with [len = 255] and
    one byte to append, [len + 1 > 256] does not hold, and still nothing
    is appended. *)
Lemma append_at_capacity_counterexample :
  store_ok st_full /\
  ~ (len st_full + Z.of_nat (length [98]) > sizeof_passwd) /\
  iscntrl 98 = false /\
  fst (loop_body default_flags (world_reject [])
         st_full (key 98 [98])) = st_full.
Proof.
  split; [split; [reflexivity | simpl; unfold sizeof_passwd; lia] |].
  split; [simpl; unfold sizeof_passwd; lia |].
  split; reflexivity.
Qed.

(** C10.  The test with [iscntrl] is made on the first byte of the
    string of a key press and on no other byte.  For a string of more
    than one byte that fits: when its first byte is not a control
    character it is appended whole, whatever its later bytes are; when
    its first byte is a control character nothing of it is appended,
    whatever its later bytes are.  So two strings that fit and agree in
    their first byte are both appended or both dropped. *)
Theorem only_first_byte_checked (f : flags) (w : world) (st : lock) (ev : XEvent) :
  store_ok st -> is_default_press ev ->
  let s := xkey_string ev in
  (1 < length s <= sizeof_buf)%nat ->
  len st + Z.of_nat (length s) < sizeof_passwd ->
  (iscntrl (nth O s 0) = false ->
     loop_body f w st ev =
       ({| passwd := take (Z.to_nat (len st)) (passwd st) ++ s ++
                     drop (Z.to_nat (len st) + length s) (passwd st);
           len := len st + Z.of_nat (length s);
           running := running st; auth_calls := auth_calls st |},
        dpms_calls f w st)) /\
  (iscntrl (nth O s 0) = true ->
     loop_body f w st ev = (st, dpms_calls f w st)).
Proof.
  intros Hok Hd s Hs Hroom.
  assert (Hbody : loop_body f w st ev =
                  (fst (case_default st s), dpms_calls f w st ++ snd (case_default st s))).
  { rewrite loop_body_key by apply Hd.
    rewrite key_press_default by exact Hd.
    rewrite take_ge by (fold s; lia). reflexivity. }
  destruct (case_default_spec st s Hok (proj2 Hs)) as [Happ Hrej].
  rewrite Hbody. split.
  - intros Hc. rewrite Happ.
    + simpl. rewrite app_nil_r. f_equal. f_equal.
      destruct Hok as [Hp Hl]. apply memcpy_take_drop; [lia |].
      rewrite Hp. unfold sizeof_passwd in *. lia.
    + split; [| split; [exact Hc | exact Hroom]].
      intros E. rewrite E in Hs. simpl in Hs. lia.
  - intros Hc. rewrite Hrej by (right; left; exact Hc).
    simpl. rewrite app_nil_r. reflexivity.
Qed.

(** A key whose string is [a] followed by the control character BEL is
    appended whole; a key whose string is BEL followed by [a] is
    dropped whole. *)
Lemma only_first_byte_checked_witness :
  iscntrl 7 = true /\
  fst (loop_body default_flags (world_reject [])
         st_typed_a (key 97 [97; 7])) =
    {| passwd := [97; 97; 7] ++ replicate 253 0; len := 3; running := true;
       auth_calls := O |} /\
  fst (loop_body default_flags (world_reject [])
         st_typed_a (key 97 [7; 97])) = st_typed_a.
Proof.
  assert (Hok : store_ok st_typed_a)
    by (split; [reflexivity | simpl; unfold sizeof_passwd; lia]).
  assert (Hd : forall s : list Z, is_default_press (key 97 s))
    by (intros s; repeat split; simpl; discriminate).
  assert (Hs : forall a b : Z,
             (1 < length (xkey_string (key 97 [a; b])) <= sizeof_buf)%nat)
    by (intros a b; unfold sizeof_buf; simpl; lia).
  assert (Hr : forall a b : Z,
             len st_typed_a + Z.of_nat (length (xkey_string (key 97 [a; b])))
             < sizeof_passwd)
    by (intros a b; simpl; unfold sizeof_passwd; lia).
  split; [reflexivity |]. split.
  - rewrite (proj1 (only_first_byte_checked default_flags (world_reject [])
                      st_typed_a (key 97 [97; 7]) Hok (Hd _) (Hs _ _) (Hr _ _))
               eq_refl).
    reflexivity.
  - rewrite (proj2 (only_first_byte_checked default_flags (world_reject [])
                      st_typed_a (key 97 [7; 97]) Hok (Hd _) (Hs _ _) (Hr _ _))
               eq_refl).
    reflexivity.
Defined.

(** ** The Return key *)

Lemma count_app (p : call -> bool) (t1 t2 : list call) :
  count p (t1 ++ t2) = (count p t1 + count p t2)%nat.
Proof.
  induction t1 as [| c t1 IH]; simpl; [reflexivity |].
  destruct (p c); simpl; rewrite IH; reflexivity.
Qed.

Lemma count_dpms_calls (p : call -> bool) (f : flags) (w : world) (st : lock) :
  p DPMSEnable = false -> p (DPMSForceLevel DPMSModeOff) = false ->
  count p (dpms_calls f w st) = O.
Proof.
  intros H1 H2. unfold dpms_calls.
  destruct (_ && _ && _); simpl; [rewrite H1, H2 |]; reflexivity.
Qed.

Lemma loop_body_Return (f : flags) (w : world) (st : lock) (ev : XEvent) :
  is_Return_press ev ->
  loop_body f w st ev =
    (fst (case_Return f w st), dpms_calls f w st ++ snd (case_Return f w st)).
Proof.
  intros [Ht Hk]. rewrite loop_body_key by exact Ht.
  rewrite key_press_Return by exact Hk. reflexivity.
Qed.

(** C1 (as the code has it).  A submission, whatever its outcome, sets
    [len] to 0 and writes one zero byte, at position [len]; every other
    byte of [passwd] keeps its value, the bytes of the password that was
    submitted among them. *)
Theorem submission_resets_len_only (f : flags) (w : world) (st : lock) (ev : XEvent) :
  store_ok st -> is_Return_press ev -> len st <> 0 ->
  let st' := fst (loop_body f w st ev) in
  len st' = 0 /\
  passwd st' = <[Z.to_nat (len st) := 0]> (passwd st) /\
  (forall j : nat, j <> Z.to_nat (len st) -> passwd st' !! j = passwd st !! j) /\
  take (Z.to_nat (len st)) (passwd st') = take (Z.to_nat (len st)) (passwd st).
Proof.
  intros Hok Hr Hl st'. unfold st'. rewrite loop_body_Return by exact Hr.
  simpl. unfold case_Return.
  destruct (Z.eqb_spec (len st) 0) as [E | _]; [contradiction |].
  assert (Hp : forall st1 : lock,
             passwd st1 = <[Z.to_nat (len st) := 0]> (passwd st) ->
             len st1 = 0 ->
             len st1 = 0 /\
             passwd st1 = <[Z.to_nat (len st) := 0]> (passwd st) /\
             (forall j : nat, j <> Z.to_nat (len st) ->
                passwd st1 !! j = passwd st !! j) /\
             take (Z.to_nat (len st)) (passwd st1) =
               take (Z.to_nat (len st)) (passwd st)).
  { intros st1 E1 E2. rewrite E1. repeat split; [exact E2 | |].
    - intros j Hj. apply list_lookup_insert_ne. congruence.
    - apply take_insert_ge. lia. }
  destruct (authenticate w _ _ =? PAM_SUCCESS); apply Hp; reflexivity.
Qed.

Lemma submission_resets_len_only_witness :
  passwd (fst (loop_body default_flags
                 (world_reject [])
                 st_typed_a (key XK_Return [13]))) =
    <[1%nat := 0]> (passwd st_typed_a).
Proof.
  apply (submission_resets_len_only default_flags _ st_typed_a (key XK_Return [13])).
  - split; [reflexivity | simpl; unfold sizeof_passwd; lia].
  - split; reflexivity.
  - simpl. lia.
Defined.

(** C1 (as the spec has it) fails: after [a] is typed and submitted, be
    the answer of PAM a failure or a success, the first byte of [passwd]
    still is [a]. *)
Lemma submission_zeroes_store_counterexample :
  let evs := [key 97 [97]; key XK_Return [13]] in
  let rejected := fst (event_loop default_flags
                         (world_reject evs) st_locked evs) in
  let accepted := fst (event_loop default_flags
                         (world_accept evs) st_locked evs) in
  (auth_calls rejected = 1%nat /\ len rejected = 0 /\
   passwd rejected !! O = Some 97 /\ ~ Forall (eq 0) (passwd rejected)) /\
  (auth_calls accepted = 1%nat /\ len accepted = 0 /\
   passwd accepted !! O = Some 97 /\ ~ Forall (eq 0) (passwd accepted)).
Proof.
  split; (split; [reflexivity | split; [reflexivity | split; [reflexivity |]]]);
    intros H; apply Forall_inv in H; discriminate H.
Qed.

(** C8.  A Return key press that finds [len = 0] does not call
    [pam_authenticate]: [len], [running] and the number of attempts stay
    as they are, and the only calls of the loop body are those made
    before the event is looked at. *)
Theorem empty_Return_never_authenticates (f : flags) (w : world) (st : lock)
    (ev : XEvent) :
  is_Return_press ev -> len st = 0 ->
  let st' := fst (loop_body f w st ev) in
  let t := snd (loop_body f w st ev) in
  count is_auth t = O /\ t = dpms_calls f w st /\
  len st' = 0 /\ running st' = running st /\ auth_calls st' = auth_calls st /\
  passwd st' = <[O := 0]> (passwd st).
Proof.
  intros Hr Hl st' t. unfold st', t. rewrite loop_body_Return by exact Hr.
  unfold case_Return. rewrite Hl. simpl. rewrite app_nil_r.
  split; [apply count_dpms_calls; reflexivity |].
  split; [reflexivity |].
  repeat split.
Qed.

Lemma empty_Return_never_authenticates_witness :
  count is_auth
    (snd (loop_body default_flags
            (world_accept [])
            st_locked (key XK_KP_Enter [13]))) = O.
Proof.
  apply (empty_Return_never_authenticates default_flags (world_accept []) st_locked
           (key XK_KP_Enter [13])).
  - split; reflexivity.
  - reflexivity.
Defined.

(** ** The answer of PAM *)

Lemma event_loop_stopped (f : flags) (w : world) (st : lock) (evs : list XEvent) :
  running st = false -> event_loop f w st evs = (st, []).
Proof. intros H. destruct evs; simpl; rewrite H; reflexivity. Qed.

Lemma event_loop_cons (f : flags) (w : world) (st : lock) (ev : XEvent)
    (evs : list XEvent) :
  running st = true ->
  event_loop f w st (ev :: evs) =
    (fst (event_loop f w (fst (loop_body f w st ev)) evs),
     XNextEvent 0 :: snd (loop_body f w st ev) ++
       snd (event_loop f w (fst (loop_body f w st ev)) evs)).
Proof.
  intros H. simpl. rewrite H.
  destruct (loop_body f w st ev) as [st1 t1]. simpl.
  destruct (event_loop f w st1 evs) as [st2 t2]. reflexivity.
Qed.

(** A running loop asks for the next event first. *)
Lemma event_loop_running (f : flags) (w : world) (st : lock) (evs : list XEvent) :
  running st = true ->
  exists (r : Z) (t : list call), snd (event_loop f w st evs) = XNextEvent r :: t.
Proof.
  intros H. destruct evs as [| ev evs].
  - simpl. rewrite H. eexists _, _. reflexivity.
  - rewrite event_loop_cons by exact H. eexists _, _. reflexivity.
Qed.

(** One pass through the loop body unlocks at most once, and does so
    exactly when it clears [running]. *)
Lemma loop_body_unlock (f : flags) (w : world) (st : lock) (ev : XEvent) :
  running st = true ->
  count is_unlock (snd (loop_body f w st ev)) =
    if running (fst (loop_body f w st ev)) then O else 1%nat.
Proof.
  intros Hrun. destruct (decide (type ev = KeyPress)) as [E | E].
  2:{ rewrite loop_body_other by exact E. simpl. rewrite Hrun.
      apply count_dpms_calls; reflexivity. }
  rewrite loop_body_key by exact E. simpl.
  rewrite count_app, count_dpms_calls by reflexivity. simpl.
  unfold key_press. simpl.
  destruct (ignored_ksym _); [simpl; rewrite Hrun; reflexivity |].
  destruct (_ =? XK_Return).
  { unfold case_Return.
    destruct (len st =? 0); [simpl; rewrite Hrun; reflexivity |].
    destruct (authenticate w _ _ =? PAM_SUCCESS) eqn:Ea; simpl; rewrite Ea.
    - reflexivity.
    - rewrite Hrun. destruct (beep f); reflexivity. }
  destruct (_ =? XK_Escape); [simpl; rewrite Hrun; reflexivity |].
  destruct (_ =? XK_BackSpace).
  { unfold case_BackSpace. destruct (len st >? 0); simpl; rewrite Hrun; reflexivity. }
  unfold case_default. destruct (_ && _ && _); simpl; rewrite Hrun; reflexivity.
Qed.

(** The loop as a whole unlocks at most once, and stops when it does. *)
Lemma event_loop_unlock (f : flags) (w : world) (evs : list XEvent) :
  forall st : lock,
    running st = true ->
    count is_unlock (snd (event_loop f w st evs)) =
      if running (fst (event_loop f w st evs)) then O else 1%nat.
Proof.
  induction evs as [| ev evs IH]; intros st Hrun.
  - simpl. rewrite Hrun. simpl. rewrite Hrun. reflexivity.
  - rewrite event_loop_cons by exact Hrun. simpl.
    rewrite count_app, loop_body_unlock by exact Hrun.
    destruct (running (fst (loop_body f w st ev))) eqn:E.
    + rewrite IH by exact E. reflexivity.
    + rewrite event_loop_stopped by exact E. simpl. rewrite E. reflexivity.
Qed.

(** C7.  When the password is submitted while the loop runs: a failure
    of [pam_authenticate] leaves [running] set and [len] at 0, and the
    loop goes on to ask for the next event; a success clears [running],
    sets [len] to 0, and no further event is read.  A whole run of the
    loop contains at most one successful [pam_authenticate]. *)
Theorem authentication_outcome (f : flags) (w : world) (st : lock) (ev : XEvent)
    (evs : list XEvent) :
  running st = true -> len st <> 0 -> is_Return_press ev ->
  let candidate := c_string (<[Z.to_nat (len st) := 0]> (passwd st)) in
  let ret := authenticate w (auth_calls st) candidate in
  let st' := fst (loop_body f w st ev) in
  (ret <> PAM_SUCCESS ->
     running st' = true /\ len st' = 0 /\
     event_loop f w st (ev :: evs) =
       (fst (event_loop f w st' evs),
        XNextEvent 0 :: pam_authenticate candidate ret :: fprintf_stderr ::
        (if beep f then [XBell 100] else []) ++ snd (event_loop f w st' evs)) /\
     exists (r : Z) (t : list call),
       snd (event_loop f w st' evs) = XNextEvent r :: t) /\
  (ret = PAM_SUCCESS ->
     running st' = false /\ len st' = 0 /\
     event_loop f w st (ev :: evs) =
       (st', [XNextEvent 0; pam_authenticate candidate ret])) /\
  (count is_unlock (snd (event_loop f w st (ev :: evs))) <= 1)%nat.
Proof.
  intros Hrun Hl Hr candidate ret st'.
  assert (Hbody : loop_body f w st ev = case_Return f w st).
  { rewrite loop_body_Return by exact Hr.
    rewrite dpms_calls_typing by exact Hl.
    destruct (case_Return f w st); reflexivity. }
  split; [| split].
  - intros Hret. unfold st'.
    rewrite event_loop_cons by exact Hrun. rewrite Hbody.
    unfold case_Return. fold candidate. fold ret.
    destruct (Z.eqb_spec (len st) 0) as [E | _]; [contradiction |].
    destruct (Z.eqb_spec ret PAM_SUCCESS) as [E | _]; [contradiction |].
    simpl. split; [exact Hrun |]. split; [reflexivity |].
    split; [reflexivity |].
    apply event_loop_running. exact Hrun.
  - intros Hret. unfold st'.
    rewrite event_loop_cons by exact Hrun. rewrite Hbody.
    unfold case_Return. fold candidate. fold ret.
    destruct (Z.eqb_spec (len st) 0) as [E | _]; [contradiction |].
    destruct (Z.eqb_spec ret PAM_SUCCESS) as [_ | E]; [| contradiction].
    simpl. split; [reflexivity |]. split; [reflexivity |].
    rewrite event_loop_stopped by reflexivity. reflexivity.
  - rewrite event_loop_unlock by exact Hrun.
    destruct (running (fst (event_loop f w st (ev :: evs)))); lia.
Qed.

Lemma authentication_outcome_witness :
  event_loop default_flags (world_accept []) st_typed_a
    [key XK_Return [13]; key 97 [97]] =
  (fst (loop_body default_flags (world_accept []) st_typed_a (key XK_Return [13])),
   [XNextEvent 0; pam_authenticate [97] PAM_SUCCESS]).
Proof.
  apply (authentication_outcome default_flags (world_accept []) st_typed_a
           (key XK_Return [13]) [key 97 [97]]).
  - reflexivity.
  - simpl. lia.
  - split; reflexivity.
  - reflexivity.
Defined.

(** ** The power-state calls *)

Lemma key_press_no_dpms (f : flags) (w : world) (st : lock) (ev : XEvent) :
  count is_dpms (snd (key_press f w st ev)) = O.
Proof.
  unfold key_press. simpl.
  destruct (ignored_ksym _); [reflexivity |].
  destruct (_ =? XK_Return).
  { unfold case_Return. destruct (len st =? 0); [reflexivity |].
    destruct (authenticate w _ _ =? PAM_SUCCESS); [reflexivity |].
    destruct (beep f); reflexivity. }
  destruct (_ =? XK_Escape); [reflexivity |].
  destruct (_ =? XK_BackSpace).
  { unfold case_BackSpace. destruct (len st >? 0); reflexivity. }
  unfold case_default. destruct (_ && _ && _); reflexivity.
Qed.

Lemma loop_body_calls (f : flags) (w : world) (st : lock) (ev : XEvent) :
  exists t : list call,
    snd (loop_body f w st ev) = dpms_calls f w st ++ t /\ count is_dpms t = O.
Proof.
  destruct (decide (type ev = KeyPress)) as [E | E].
  - rewrite loop_body_key by exact E. simpl.
    eexists. split; [reflexivity | apply key_press_no_dpms].
  - rewrite loop_body_other by exact E. simpl.
    exists []. rewrite app_nil_r. split; reflexivity.
Qed.

(** C4 (as the code has it).  With [dpms] set and a display that is
    DPMS capable, the monitor is switched off at every event that
    arrives while [len] is 0, before the event is looked at, and at no
    event that arrives while [len] is not 0.  In particular it is
    switched off at the first event of a running loop, before anything
    else is done with that event. *)
Theorem dpms_forced_while_store_empty (f : flags) (w : world) (st : lock)
    (ev : XEvent) (evs : list XEvent) :
  dpms f = true -> DPMSCapable w = true ->
  (len st = 0 ->
     exists t : list call,
       snd (loop_body f w st ev) =
         DPMSEnable :: DPMSForceLevel DPMSModeOff :: t /\
       count is_dpms t = O) /\
  (len st <> 0 -> count is_dpms (snd (loop_body f w st ev)) = O) /\
  (len st = 0 -> running st = true ->
     exists t : list call,
       snd (event_loop f w st (ev :: evs)) =
         XNextEvent 0 :: DPMSEnable :: DPMSForceLevel DPMSModeOff :: t).
Proof.
  intros Hd Hc.
  destruct (loop_body_calls f w st ev) as (t & Ht & Hn).
  assert (Hon : len st = 0 ->
                dpms_calls f w st = [DPMSEnable; DPMSForceLevel DPMSModeOff]).
  { intros Hl. unfold dpms_calls. rewrite Hl, Hd, Hc. reflexivity. }
  split; [| split].
  - intros Hl. exists t. rewrite Ht, (Hon Hl). split; [reflexivity | exact Hn].
  - intros Hl. rewrite Ht, dpms_calls_typing by exact Hl. exact Hn.
  - intros Hl Hrun. rewrite event_loop_cons by exact Hrun. simpl.
    rewrite Ht, (Hon Hl). eexists. reflexivity.
Qed.

Lemma dpms_forced_while_store_empty_witness :
  exists t : list call,
    snd (event_loop
           {| dont_fork := true; beep := false; dpms := true;
              xpm_image := false; tiling := false; curs_is_null := false |}
           (world_reject []) st_locked [expose; expose]) =
      XNextEvent 0 :: DPMSEnable :: DPMSForceLevel DPMSModeOff :: t.
Proof.
  apply (dpms_forced_while_store_empty
           {| dont_fork := true; beep := false; dpms := true;
              xpm_image := false; tiling := false; curs_is_null := false |}
           (world_reject []) st_locked expose [expose]); reflexivity.
Defined.

(** C4 (as the spec has it) fails: started with [-d], [main] switches
    the monitor off at each of two events that arrive before anything is
    typed, twice in all. *)
Lemma dpms_once_counterexample :
  let w := sample_world [opt_d] (always GrabSuccess) (always GrabSuccess)
             (fun _ _ => PAM_AUTH_ERR) [expose; expose] in
  snd (main w) =
    [XGrabPointer 0; XGrabKeyboard 0; XSync;
     XNextEvent 0; DPMSEnable; DPMSForceLevel DPMSModeOff;
     XNextEvent 0; DPMSEnable; DPMSForceLevel DPMSModeOff;
     XNextEvent 1;
     XUngrabPointer; XFreePixmap; XFreePixmap; XDestroyWindow; XCloseDisplay] /\
  count is_force_level (snd (main w)) = 2%nat.
Proof. split; reflexivity. Qed.

(** ** The grab loops *)

(** A grab that fails throughout: the loop makes [n] attempts, sleeps
    after each of them, the last included, and ends with [len = 0]. *)
Lemma grab_loop_failing (mk : Z -> call) (grab : nat -> Z) (n : nat) :
  forall i : nat,
    (forall j : nat, (i <= j < i + n)%nat -> grab j <> GrabSuccess) ->
    grab_loop mk grab i n =
      (O, flat_map (fun j => [mk (grab j); usleep 1000]) (seq i n)).
Proof.
  induction n as [| n IH]; intros i H; simpl; [reflexivity |].
  destruct (Z.eqb_spec (grab i) GrabSuccess) as [E | _].
  - exfalso. apply (H i); [lia | exact E].
  - rewrite IH by (intros j Hj; apply H; lia). reflexivity.
Qed.

Lemma count_attempts (mk : Z -> call) (grab : nat -> Z) (p : call -> bool)
    (a b : bool) (js : list nat) :
  (forall r : Z, p (mk r) = a) -> p (usleep 1000) = b ->
  count p (flat_map (fun j => [mk (grab j); usleep 1000]) js) =
    ((if a then length js else O) + (if b then length js else O))%nat.
Proof.
  intros Ha Hb. induction js as [| j js IH]; simpl.
  - destruct a, b; reflexivity.
  - rewrite Ha, Hb, IH. destruct a, b; simpl; lia.
Qed.

(** C2 (as the code has it).  When the grab fails at every attempt, the
    loop started with [len = N] calls it exactly [N] times, sleeps
    exactly [N] times, once after every failed attempt, and ends with
    [len = 0], which is how it reports the failure.  The calls are, [N]
    times over, the grab followed by [usleep (1000)]. *)
Theorem failing_grab_sleeps_after_each_attempt (mk : Z -> call) (grab : nat -> Z)
    (N : nat) :
  mk = XGrabPointer \/ mk = XGrabKeyboard ->
  (forall j : nat, grab j <> GrabSuccess) ->
  let l := fst (grab_loop mk grab O N) in
  let t := snd (grab_loop mk grab O N) in
  count is_grab t = N /\ count is_usleep t = N /\
  l = O /\ (0 <? l)%nat = false /\
  t = flat_map (fun j => [mk (grab j); usleep 1000]) (seq O N).
Proof.
  intros Hmk Hfail l t. unfold l, t.
  rewrite grab_loop_failing by (intros j _; apply Hfail). simpl.
  split; [| split; [| repeat split]].
  - rewrite (count_attempts mk grab is_grab true false)
      by (try reflexivity; intros r; destruct Hmk as [-> | ->]; reflexivity).
    rewrite length_seq. lia.
  - rewrite (count_attempts mk grab is_usleep false true)
      by (try reflexivity; intros r; destruct Hmk as [-> | ->]; reflexivity).
    rewrite length_seq. lia.
Qed.

Lemma failing_grab_sleeps_after_each_attempt_witness :
  count is_usleep (snd (grab_loop XGrabKeyboard (always AlreadyGrabbed) O 3)) = 3%nat.
Proof.
  apply (failing_grab_sleeps_after_each_attempt XGrabKeyboard
           (always AlreadyGrabbed) 3).
  - right. reflexivity.
  - intros j. unfold always, AlreadyGrabbed, GrabSuccess. lia.
Defined.

(** C2 (as the spec has it) fails: with the 1000 attempts of [main] and
    a pointer grab that always fails, the loop sleeps 1000 times, not
    999 times. *)
Lemma grab_sleeps_counterexample :
  let t := snd (grab_loop XGrabPointer (always AlreadyGrabbed) O 1000) in
  count is_grab t = 1000%nat /\ count is_usleep t = 1000%nat /\
  count is_usleep t <> (1000 - 1)%nat.
Proof. vm_compute. repeat split. discriminate. Qed.

(** ** Leaving [main] *)

Lemma grab_loop_count_other (mk : Z -> call) (grab : nat -> Z) (p : call -> bool)
    (n : nat) :
  (forall r : Z, p (mk r) = false) -> p (usleep 1000) = false ->
  forall i : nat, count p (snd (grab_loop mk grab i n)) = O.
Proof.
  intros Hmk Hsl. induction n as [| n IH]; intros i; simpl; [reflexivity |].
  destruct (grab i =? GrabSuccess); simpl.
  - rewrite Hmk. reflexivity.
  - specialize (IH (S i)). destruct (grab_loop mk grab (S i) n) as [l t].
    simpl in *. rewrite Hmk, Hsl. exact IH.
Qed.

Lemma grab_loop_exhausted (mk : Z -> call) (grab : nat -> Z) :
  exhausted grab -> fst (grab_loop mk grab O 1000) = O.
Proof.
  intros H. rewrite grab_loop_failing; [reflexivity |].
  intros j Hj. apply H. lia.
Qed.

Lemma acquire_grabs_exhausted (w : world) :
  exhausted (grab_pointer w) \/ exhausted (grab_keyboard w) ->
  fst (acquire_grabs w) = false.
Proof.
  intros H. unfold acquire_grabs.
  destruct (grab_loop XGrabPointer (grab_pointer w) O 1000) as [l1 t1] eqn:E1.
  destruct (grab_loop XGrabKeyboard (grab_keyboard w) O 1000) as [l2 t2] eqn:E2.
  destruct H as [H | H].
  - apply (grab_loop_exhausted XGrabPointer) in H. rewrite E1 in H.
    simpl in H. subst l1. reflexivity.
  - apply (grab_loop_exhausted XGrabKeyboard) in H. rewrite E2 in H.
    simpl in H. subst l2. destruct (true && (0 <? l1)%nat); reflexivity.
Qed.

Lemma acquire_grabs_count_other (w : world) (p : call -> bool) :
  (forall r : Z, p (XGrabPointer r) = false) ->
  (forall r : Z, p (XGrabKeyboard r) = false) ->
  p (usleep 1000) = false ->
  count p (snd (acquire_grabs w)) = O.
Proof.
  intros Hp Hk Hs. unfold acquire_grabs.
  pose proof (grab_loop_count_other XGrabPointer (grab_pointer w) p 1000 Hp Hs O) as H1.
  pose proof (grab_loop_count_other XGrabKeyboard (grab_keyboard w) p 1000 Hk Hs O) as H2.
  destruct (grab_loop XGrabPointer (grab_pointer w) O 1000) as [l1 t1].
  destruct (grab_loop XGrabKeyboard (grab_keyboard w) O 1000) as [l2 t2].
  simpl in *. destruct (0 <? l1)%nat; simpl; [| exact H1].
  rewrite count_app, H1, H2. reflexivity.
Qed.

Lemma lock_screen_calls (f : flags) (w : world) :
  lock_screen f w =
    (0, snd (acquire_grabs w) ++
        XSync :: snd (event_loop f w
                        {| passwd := passwd_init; len := 0;
                           running := fst (acquire_grabs w); auth_calls := O |}
                        (events w)) ++ teardown f w).
Proof.
  unfold lock_screen. destruct (acquire_grabs w) as [run t1]. simpl.
  destruct (event_loop f w _ (events w)) as [st t2]. reflexivity.
Qed.

Lemma parse_options_code (opts : list option_char) :
  forall (f : flags) (code : Z),
    parse_options f opts = inl code -> code = 0 \/ code = 1.
Proof.
  induction opts as [| opt opts IH]; intros f code H; simpl in H; [discriminate |].
  destruct (set_option f opt) as [c | f'] eqn:E; [| exact (IH f' code H)].
  injection H as <-.
  destruct opt; simpl in E; try discriminate; try (injection E as <-; tauto).
  - destruct (color_is_invalid optarg); [injection E as <-; tauto | discriminate].
  - destruct (list_Z_eqb _ str_default); [discriminate |].
    destruct (list_Z_eqb _ str_win); discriminate.
Qed.

Lemma startup_code (w : world) (code : Z) :
  startup w = inl code -> code = 0 \/ code = 1.
Proof.
  unfold startup. intros H.
  destruct (parse_options default_flags (getopt_long w)) as [c | f] eqn:E.
  { injection H as <-. exact (parse_options_code _ _ _ E). }
  destruct (negb (getenv_USER w)); [injection H as <-; tauto |].
  destruct (negb (pam_start w =? PAM_SUCCESS)); [injection H as <-; tauto |].
  destruct (negb (XOpenDisplay w)); [injection H as <-; tauto |].
  destruct (negb (dont_fork f) && negb (fork w =? 0)); [injection H as <-; tauto |].
  unfold load_image in H.
  destruct (xpm_image f && file_exists w); [| discriminate].
  destruct (negb (XpmReadFileToXpmImage w =? 0)); [injection H as <-; tauto |].
  destruct (negb (XpmCreatePixmapFromXpmImage w =? 0)); [injection H as <-; tauto |].
  discriminate.
Qed.

(** C3 (as the code has it).  When a grab fails at all its attempts,
    [main] does not enter the event loop and does not ask PAM anything;
    it goes through the calls that end the lock, the first of which
    releases the pointer grab, and returns 0.  The exit status of [main]
    is 0 or 1 in every run, and a run that ends with status 1 has not
    attempted any grab. *)
Theorem grab_failure_returns_zero (w : world) (f : flags) :
  startup w = inr f ->
  exhausted (grab_pointer w) \/ exhausted (grab_keyboard w) ->
  main w = (0, snd (acquire_grabs w) ++ XSync :: teardown f w) /\
  (exists t : list call, teardown f w = XUngrabPointer :: t) /\
  count is_next_event (snd (main w)) = O /\
  count is_auth (snd (main w)) = O /\
  (forall w' : world,
     fst (main w') = 0 \/ (fst (main w') = 1 /\ snd (main w') = [])).
Proof.
  intros Hs Hx.
  assert (Hm : main w = (0, snd (acquire_grabs w) ++ XSync :: teardown f w)).
  { unfold main. rewrite Hs, lock_screen_calls.
    rewrite (acquire_grabs_exhausted w Hx).
    rewrite event_loop_stopped by reflexivity. reflexivity. }
  assert (Ht : forall p : call -> bool,
             p XUngrabPointer = false -> p XFreePixmap = false ->
             p XDestroyWindow = false -> p XCloseDisplay = false ->
             count p (teardown f w) = O).
  { intros p H1 H2 H3 H4. unfold teardown.
    destruct (negb (px_curs f w =? 0)); simpl; rewrite H1, ?H2, H3, H4; reflexivity. }
  assert (Hc : forall p : call -> bool,
             (forall r : Z, p (XGrabPointer r) = false) ->
             (forall r : Z, p (XGrabKeyboard r) = false) ->
             p (usleep 1000) = false -> p XSync = false ->
             p XUngrabPointer = false -> p XFreePixmap = false ->
             p XDestroyWindow = false -> p XCloseDisplay = false ->
             count p (snd (main w)) = O).
  { intros p H1 H2 H3 H4 H5 H6 H7 H8. rewrite Hm. cbn [snd].
    rewrite count_app, acquire_grabs_count_other by assumption.
    cbn [count]. rewrite H4. apply Ht; assumption. }
  split; [exact Hm |]. split; [eexists; reflexivity |].
  split; [apply Hc; reflexivity |]. split; [apply Hc; reflexivity |].
  intros w'. unfold main. destruct (startup w') as [code | f'] eqn:E; simpl.
  - destruct (startup_code w' code E) as [-> | ->]; tauto.
  - left. rewrite lock_screen_calls. reflexivity.
Qed.

Lemma grab_failure_returns_zero_witness :
  fst (main (sample_world [] (always GrabSuccess) (always AlreadyGrabbed)
               (fun _ _ => PAM_SUCCESS) [key 97 [97]])) = 0.
Proof.
  set (w := sample_world [] (always GrabSuccess) (always AlreadyGrabbed)
              (fun _ _ => PAM_SUCCESS) [key 97 [97]]).
  assert (Hs : startup w =
               inr {| dont_fork := true; beep := false; dpms := false;
                      xpm_image := false; tiling := false;
                      curs_is_null := false |}) by reflexivity.
  assert (Hx : exhausted (grab_pointer w) \/ exhausted (grab_keyboard w)).
  { right. intros i _. simpl. unfold always, AlreadyGrabbed, GrabSuccess. lia. }
  destruct (grab_failure_returns_zero w _ Hs Hx) as [Hm _].
  rewrite Hm. reflexivity.
Defined.

(** C3 (as the spec has it) fails: when the pointer grab fails 1000
    times, and when the pointer is grabbed and the keyboard grab fails
    1000 times, [main] returns 0. *)
Lemma grab_failure_exit_status_counterexample :
  let no_pointer := sample_world [] (always AlreadyGrabbed) (always GrabSuccess)
                      (fun _ _ => PAM_SUCCESS) [key 97 [97]] in
  let no_keyboard := sample_world [] (always GrabSuccess) (always AlreadyGrabbed)
                       (fun _ _ => PAM_SUCCESS) [key 97 [97]] in
  (count is_grab (snd (main no_pointer)) = 1000%nat /\
   fst (acquire_grabs no_pointer) = false /\ fst (main no_pointer) = 0) /\
  (count is_grab (snd (main no_keyboard)) = 1001%nat /\
   fst (acquire_grabs no_keyboard) = false /\ fst (main no_keyboard) = 0).
Proof. vm_compute. repeat split. Qed.

(** ** The order of the grabs *)

(** After the pointer loop the pointer is held exactly when the loop
    ended with [len > 0]. *)
Lemma grab_order_pointer_loop (grab : nat -> Z) (rest : list call) (n : nat) :
  forall (i : nat) (p k : bool),
    grab_order p k (snd (grab_loop XGrabPointer grab i n) ++ rest) =
    grab_order (p || (0 <? fst (grab_loop XGrabPointer grab i n))%nat) k rest.
Proof.
  induction n as [| n IH]; intros i p k; cbn [grab_loop].
  - cbn. rewrite orb_false_r. reflexivity.
  - destruct (grab i =? GrabSuccess) eqn:E.
    + cbn [fst snd app grab_order]. rewrite E. reflexivity.
    + specialize (IH (S i) p k).
      destruct (grab_loop XGrabPointer grab (S i) n) as [l t].
      cbn [fst snd app grab_order] in *. rewrite E, orb_false_r. exact IH.
Qed.

(** The keyboard loop is in order when the pointer is held, and after
    it the keyboard is held exactly when the loop ended with [len > 0]. *)
Lemma grab_order_keyboard_loop (grab : nat -> Z) (rest : list call) (n : nat) :
  forall (i : nat) (k : bool),
    grab_order true k (snd (grab_loop XGrabKeyboard grab i n) ++ rest) =
    grab_order true (k || (0 <? fst (grab_loop XGrabKeyboard grab i n))%nat) rest.
Proof.
  induction n as [| n IH]; intros i k; cbn [grab_loop].
  - cbn. rewrite orb_false_r. reflexivity.
  - destruct (grab i =? GrabSuccess) eqn:E.
    + cbn [fst snd app grab_order andb]. rewrite E. reflexivity.
    + specialize (IH (S i) k).
      destruct (grab_loop XGrabKeyboard grab (S i) n) as [l t].
      cbn [fst snd app grab_order andb] in *. rewrite E, orb_false_r. exact IH.
Qed.

Lemma key_press_loop_calls (f : flags) (w : world) (st : lock) (ev : XEvent) :
  forallb is_loop_call (snd (key_press f w st ev)) = true.
Proof.
  unfold key_press. simpl.
  destruct (ignored_ksym _); [reflexivity |].
  destruct (_ =? XK_Return).
  { unfold case_Return. destruct (len st =? 0); [reflexivity |].
    destruct (authenticate w _ _ =? PAM_SUCCESS); [reflexivity |].
    destruct (beep f); reflexivity. }
  destruct (_ =? XK_Escape); [reflexivity |].
  destruct (_ =? XK_BackSpace).
  { unfold case_BackSpace. destruct (len st >? 0); reflexivity. }
  unfold case_default. destruct (_ && _ && _); reflexivity.
Qed.

Lemma loop_body_loop_calls (f : flags) (w : world) (st : lock) (ev : XEvent) :
  forallb is_loop_call (snd (loop_body f w st ev)) = true.
Proof.
  assert (Hd : forallb is_loop_call (dpms_calls f w st) = true).
  { unfold dpms_calls. destruct (_ && _ && _); reflexivity. }
  destruct (decide (type ev = KeyPress)) as [E | E].
  - rewrite loop_body_key by exact E. simpl.
    rewrite forallb_app, Hd, key_press_loop_calls. reflexivity.
  - rewrite loop_body_other by exact E. exact Hd.
Qed.

Lemma event_loop_loop_calls (f : flags) (w : world) (evs : list XEvent) :
  forall st : lock, forallb is_loop_call (snd (event_loop f w st evs)) = true.
Proof.
  induction evs as [| ev evs IH]; intros st.
  - simpl. destruct (running st); reflexivity.
  - destruct (running st) eqn:E.
    + rewrite event_loop_cons by exact E. simpl.
      rewrite forallb_app, loop_body_loop_calls, IH. reflexivity.
    + rewrite event_loop_stopped by exact E. reflexivity.
Qed.

(** While both grabs are held, the calls of the event loop are in order
    and leave both grabs held. *)
Lemma grab_order_loop_calls (t rest : list call) :
  forallb is_loop_call t = true ->
  grab_order true true (t ++ rest) = grab_order true true rest.
Proof.
  induction t as [| c t IH]; intros H; [reflexivity |].
  simpl in H. apply andb_prop in H as [Hc Ht].
  destruct c; try discriminate Hc; simpl; exact (IH Ht).
Qed.

Lemma grab_order_teardown (f : flags) (w : world) (p k : bool) :
  grab_order p k (XSync :: teardown f w) = true.
Proof.
  unfold teardown. destruct (negb (px_curs f w =? 0)); reflexivity.
Qed.

Lemma grab_order_lock_screen (f : flags) (w : world) :
  grab_order false false (snd (lock_screen f w)) = true.
Proof.
  rewrite lock_screen_calls. cbn [snd]. unfold acquire_grabs.
  pose proof (grab_order_pointer_loop (grab_pointer w)) as Hp.
  pose proof (grab_order_keyboard_loop (grab_keyboard w)) as Hk.
  specialize (fun rest => Hp rest 1000%nat O false false).
  specialize (fun rest => Hk rest 1000%nat O false).
  destruct (grab_loop XGrabPointer (grab_pointer w) O 1000) as [l1 t1].
  destruct (grab_loop XGrabKeyboard (grab_keyboard w) O 1000) as [l2 t2].
  cbn [fst snd] in *.
  destruct (0 <? l1)%nat; cbn [andb fst snd].
  - rewrite <- app_assoc, Hp, Hk. cbn [orb].
    destruct (0 <? l2)%nat.
    + change (XSync :: ?t) with ([XSync] ++ t).
      cbn [app grab_order].
      rewrite grab_order_loop_calls by apply event_loop_loop_calls.
      unfold teardown. destruct (negb (px_curs f w =? 0)); reflexivity.
    + rewrite event_loop_stopped by reflexivity. apply grab_order_teardown.
  - rewrite Hp. cbn [orb].
    rewrite event_loop_stopped by reflexivity. apply grab_order_teardown.
Qed.

(** What [grab_order] says about a call of [XGrabKeyboard]. *)
Lemma grab_order_keyboard (r : Z) (t2 : list call) (t1 : list call) :
  forall p k : bool,
    grab_order p k (t1 ++ XGrabKeyboard r :: t2) = true ->
    p = true \/ In (XGrabPointer GrabSuccess) t1.
Proof.
  induction t1 as [| c t1 IH]; intros p k H; simpl in H.
  - apply andb_prop in H as [H _]. left. exact H.
  - destruct c; simpl;
      try (destruct (IH _ _ H) as [Hp | Hi]; [left; exact Hp | right; right; exact Hi]).
    + destruct (IH _ _ H) as [Hp | Hi]; [| right; right; exact Hi].
      apply orb_prop in Hp as [Hp | Hp]; [left; exact Hp |].
      right. left. apply Z.eqb_eq in Hp. rewrite Hp. reflexivity.
    + apply andb_prop in H as [H _]. left. exact H.
    + apply andb_prop in H as [H _]. apply andb_prop in H as [H _]. left. exact H.
    + destruct (IH _ _ H) as [Hp | Hi]; [discriminate | right; right; exact Hi].
    + destruct (IH _ _ H) as [Hp | Hi]; [discriminate | right; right; exact Hi].
Qed.

(** What [grab_order] says about a call of [XNextEvent]. *)
Lemma grab_order_next_event (r : Z) (t2 : list call) (t1 : list call) :
  forall p k : bool,
    grab_order p k (t1 ++ XNextEvent r :: t2) = true ->
    (p = true \/ In (XGrabPointer GrabSuccess) t1) /\
    (k = true \/ In (XGrabKeyboard GrabSuccess) t1).
Proof.
  induction t1 as [| c t1 IH]; intros p k H; simpl in H.
  - apply andb_prop in H as [H _]. apply andb_prop in H as [Hp Hk]. tauto.
  - assert (Hgo : forall p' k' : bool,
               grab_order p' k' (t1 ++ XNextEvent r :: t2) = true ->
               (p' = true -> p = true \/ c = XGrabPointer GrabSuccess) ->
               (k' = true -> k = true \/ c = XGrabKeyboard GrabSuccess) ->
               (p = true \/ In (XGrabPointer GrabSuccess) (c :: t1)) /\
               (k = true \/ In (XGrabKeyboard GrabSuccess) (c :: t1))).
    { intros p' k' H' Hp Hk. destruct (IH _ _ H') as [[E1 | I1] [E2 | I2]];
        simpl; try specialize (Hp E1); try specialize (Hk E2); tauto. }
    assert (Heq : forall (b : bool) (x : Z) (mk : Z -> call),
               b || (x =? GrabSuccess) = true ->
               b = true \/ mk x = mk GrabSuccess).
    { intros b x mk E. apply orb_prop in E as [E | E]; [left; exact E |].
      right. apply Z.eqb_eq in E. rewrite E. reflexivity. }
    destruct c;
      try (apply (Hgo _ _ H); [intros E; left; exact E | intros E; left; exact E]).
    + apply (Hgo _ _ H); [apply Heq | intros E; left; exact E].
    + apply andb_prop in H as [Hp H].
      apply (Hgo _ _ H); [intros E; left; exact E | apply Heq].
    + apply andb_prop in H as [Hpk H]. apply andb_prop in Hpk as [Hp Hk]. tauto.
    + apply (Hgo _ _ H); [discriminate | intros E; left; exact E].
    + apply (Hgo _ _ H); discriminate.
Qed.

Lemma count_teardown (f : flags) (w : world) (p : call -> bool) :
  p XUngrabPointer = false -> p XFreePixmap = false ->
  p XDestroyWindow = false -> p XCloseDisplay = false ->
  count p (teardown f w) = O.
Proof.
  intros H1 H2 H3 H4. unfold teardown.
  destruct (negb (px_curs f w =? 0)); simpl; rewrite H1, ?H2, H3, H4; reflexivity.
Qed.

(** C6.  In every run of [main] the calls respect the order of the
    grabs: [XGrabKeyboard] is called only while the pointer grab is
    held and [XNextEvent] only while both grabs are held.  So every
    call of [XGrabKeyboard] comes after a successful [XGrabPointer],
    every call of [XNextEvent] comes after a successful [XGrabPointer]
    and a successful [XGrabKeyboard], and when the pointer grab fails
    at all its attempts [XGrabKeyboard] is not called at all. *)
Theorem keyboard_grab_only_after_pointer_grab (w : world) :
  grab_order false false (snd (main w)) = true /\
  (forall (t1 : list call) (r : Z) (t2 : list call),
     snd (main w) = t1 ++ XGrabKeyboard r :: t2 ->
     In (XGrabPointer GrabSuccess) t1) /\
  (forall (t1 : list call) (r : Z) (t2 : list call),
     snd (main w) = t1 ++ XNextEvent r :: t2 ->
     In (XGrabPointer GrabSuccess) t1 /\ In (XGrabKeyboard GrabSuccess) t1) /\
  (exhausted (grab_pointer w) ->
     count is_keyboard_grab (snd (main w)) = O /\
     count is_next_event (snd (main w)) = O).
Proof.
  assert (Hord : grab_order false false (snd (main w)) = true).
  { unfold main. destruct (startup w) as [code | f]; [reflexivity |].
    apply grab_order_lock_screen. }
  split; [exact Hord |]. split; [| split].
  - intros t1 r t2 E. rewrite E in Hord.
    destruct (grab_order_keyboard r t2 t1 _ _ Hord) as [H | H];
      [discriminate | exact H].
  - intros t1 r t2 E. rewrite E in Hord.
    destruct (grab_order_next_event r t2 t1 _ _ Hord) as [[H1 | H1] [H2 | H2]];
      try discriminate. split; assumption.
  - intros Hx. unfold main. destruct (startup w) as [code | f]; [split; reflexivity |].
    rewrite lock_screen_calls. cbn [snd]. unfold acquire_grabs.
    pose proof (grab_loop_exhausted XGrabPointer _ Hx) as Hl.
    assert (Hp : forall p : call -> bool,
               (forall r : Z, p (XGrabPointer r) = false) ->
               p (usleep 1000) = false ->
               count p (snd (grab_loop XGrabPointer (grab_pointer w) O 1000)) = O).
    { intros p H1 H2. apply grab_loop_count_other; assumption. }
    destruct (grab_loop XGrabPointer (grab_pointer w) O 1000) as [l1 t1].
    cbn [fst snd] in *. subst l1. cbn [Nat.ltb Nat.leb andb fst snd].
    rewrite event_loop_stopped by reflexivity. cbn [snd app].
    split; rewrite count_app, Hp by reflexivity; cbn [count];
      apply count_teardown; reflexivity.
Qed.

(** A run that reads one event, and a run in which the pointer is
    never grabbed. *)
Lemma keyboard_grab_only_after_pointer_grab_witness :
  (In (XGrabPointer GrabSuccess) [XGrabPointer 0; XGrabKeyboard 0; XSync] /\
   In (XGrabKeyboard GrabSuccess) [XGrabPointer 0; XGrabKeyboard 0; XSync]) /\
  count is_keyboard_grab
    (snd (main (sample_world [] (always AlreadyGrabbed) (always GrabSuccess)
                  (fun _ _ => PAM_SUCCESS) [expose]))) = O.
Proof.
  split.
  - apply (proj1 (proj2 (proj2
             (keyboard_grab_only_after_pointer_grab (world_reject [expose]))))
             [XGrabPointer 0; XGrabKeyboard 0; XSync] 0
             [XNextEvent 1; XUngrabPointer; XFreePixmap; XFreePixmap;
              XDestroyWindow; XCloseDisplay]).
    reflexivity.
  - apply (proj2 (proj2 (proj2
             (keyboard_grab_only_after_pointer_grab
                (sample_world [] (always AlreadyGrabbed) (always GrabSuccess)
                   (fun _ _ => PAM_SUCCESS) [expose]))))).
    intros i _. simpl. unfold always, AlreadyGrabbed, GrabSuccess. lia.
Defined.

(** ** The conversation with PAM *)

Lemma conv_loop_skip (al : allocator) (pw : list Z) (m : pam_message)
    (ms : list pam_message) (c : nat) (arr : list pam_response) :
  echo_prompt m = false ->
  conv_loop al pw (m :: ms) c arr = conv_loop al pw ms (S c) arr.
Proof.
  unfold echo_prompt. intros H. apply orb_false_elim in H as [H1 H2].
  simpl. rewrite H1, H2. reflexivity.
Qed.

(** Past the first message, the loop either finds no prompt to answer
    and returns 0 with the array as it is, or stops at the first such
    prompt, whose record it cannot reach. *)
Lemma conv_loop_later (al : allocator) (pw : list Z) (ms : list pam_message) :
  forall (c : nat) (arr : list pam_response),
    (forallb (fun m => negb (echo_prompt m)) ms = true /\
     conv_loop al pw ms (S c) arr = conv_return 0 (Some arr)) \/
    (exists c' : nat,
       (c < c')%nat /\ conv_loop al pw ms (S c) arr = conv_undefined c' /\
       (echo_prompt <$> ms !! (c' - S c)%nat) = Some true).
Proof.
  induction ms as [| m ms IH]; intros c arr.
  - left. split; reflexivity.
  - destruct (echo_prompt m) eqn:E.
    + right. exists (S c). split; [lia |]. split.
      * unfold echo_prompt in E. simpl.
        destruct (msg_style m =? PAM_PROMPT_ECHO_OFF);
          destruct (msg_style m =? PAM_PROMPT_ECHO_ON);
          try reflexivity; discriminate E.
      * rewrite Nat.sub_diag. simpl. rewrite E. reflexivity.
    + rewrite conv_loop_skip by exact E.
      destruct (IH (S c) arr) as [[Hn Hr] | (c' & Hc & Hu & Hm)].
      * left. split; [simpl; rewrite E; exact Hn | exact Hr].
      * right. exists c'. split; [lia |]. split; [exact Hu |].
        replace (c' - S c)%nat with (S (c' - S (S c)))%nat by lia. exact Hm.
Qed.

(** A conversation of one message is answered as PAM expects: a prompt
    gets the password, any other message gets no answer, and a failed
    allocation makes the callback return 1. *)
Lemma conv_callback_one_message (al : allocator) (pw : list Z) (m : pam_message)
    (star_resp : option (list pam_response)) :
  conv_callback al pw [m] star_resp =
    if negb (calloc al) then conv_return 1 None
    else if negb (echo_prompt m)
         then conv_return 0 (Some [{| resp := None; resp_retcode := 0 |}])
         else if strdup al O
              then conv_return 0
                     (Some [{| resp := Some (c_string pw); resp_retcode := 0 |}])
              else conv_return 1 (Some [{| resp := None; resp_retcode := 0 |}]).
Proof.
  unfold conv_callback, echo_prompt. simpl.
  destruct (calloc al); [| reflexivity]. simpl.
  destruct (msg_style m =? PAM_PROMPT_ECHO_OFF);
    destruct (msg_style m =? PAM_PROMPT_ECHO_ON); simpl;
    try reflexivity; destruct (strdup al O); reflexivity.
Qed.

(** Whatever the messages are, the callback does not return 0 when
    [calloc] fails or when the [strdup] for the first message fails. *)
Lemma conv_callback_allocation_failure (al : allocator) (pw : list Z)
    (ms : list pam_message) (star_resp r : option (list pam_response)) :
  calloc al = false \/
  (exists (m : pam_message) (ms' : list pam_message),
     ms = m :: ms' /\ echo_prompt m = true /\ strdup al O = false) ->
  conv_callback al pw ms star_resp <> conv_return 0 r.
Proof.
  intros [H | (m & ms' & -> & He & Hs)]; unfold conv_callback.
  - destruct ms; simpl; [discriminate |]. rewrite H. discriminate.
  - simpl. destruct (calloc al); simpl; [| discriminate].
    unfold echo_prompt in He. rewrite Hs.
    destruct (msg_style m =? PAM_PROMPT_ECHO_OFF);
      destruct (msg_style m =? PAM_PROMPT_ECHO_ON);
      simpl; discriminate.
Qed.

(** C9 fails on the code for a conversation of two messages, a text
    shown to the user followed by the prompt for the password: the
    record of the prompt is the second one of the array stored in
    [*resp], but the callback goes through [resp[1]], which is not part
    of what [resp] points to.  No answer is stored in the array for
    that prompt; the behaviour is undefined. *)
Theorem conv_callback_second_prompt_unanswered (pw : list Z)
    (text prompt : list Z) (dup : nat -> bool)
    (star_resp : option (list pam_response)) :
  conv_callback {| calloc := true; strdup := dup |} pw
    [{| msg_style := PAM_TEXT_INFO; msg := text |};
     {| msg_style := PAM_PROMPT_ECHO_OFF; msg := prompt |}] star_resp =
  conv_undefined 1.
Proof. reflexivity. Qed.

(** * Further properties of the event loop *)

Lemma typed_length (st : lock) :
  store_ok st -> length (typed st) = Z.to_nat (len st).
Proof.
  intros [Hp Hl]. unfold typed. rewrite length_take, Hp.
  unfold sizeof_passwd in *. lia.
Qed.

Lemma key_press_BackSpace (f : flags) (w : world) (st : lock) (ev : XEvent) :
  keypad_ksym (xkey_keysym ev) = XK_BackSpace ->
  key_press f w st ev = case_BackSpace st.
Proof. intros H. unfold key_press. simpl. rewrite H. reflexivity. Qed.

Lemma key_press_Escape (f : flags) (w : world) (st : lock) (ev : XEvent) :
  keypad_ksym (xkey_keysym ev) = XK_Escape ->
  key_press f w st ev = case_Escape st.
Proof. intros H. unfold key_press. simpl. rewrite H. reflexivity. Qed.

Lemma removelast_take (l : list Z) (n : nat) :
  (S n <= length l)%nat -> removelast (take (S n) l) = take n l.
Proof.
  revert l. induction n as [| n IH]; intros l H.
  - destruct l as [| a l]; [simpl in H; lia | reflexivity].
  - destruct l as [| a l]; [simpl in H; lia |].
    simpl in H. change (take (S (S n)) (a :: l)) with (a :: take (S n) l).
    change (take (S n) (a :: l)) with (a :: take n l).
    rewrite <- IH by lia.
    destruct l as [| b l]; [simpl in H; lia | reflexivity].
Qed.

(** What [case XK_BackSpace] does to the typed password. *)
Lemma case_BackSpace_typed (st : lock) :
  store_ok st ->
  typed (fst (case_BackSpace st)) = removelast (typed st) /\
  len (fst (case_BackSpace st)) = Z.max 0 (len st - 1) /\
  passwd (fst (case_BackSpace st)) = passwd st /\
  running (fst (case_BackSpace st)) = running st /\
  snd (case_BackSpace st) = [].
Proof.
  intros [Hp Hl]. unfold case_BackSpace, sizeof_passwd in *.
  destruct (Z.gtb_spec (len st) 0) as [E | E]; simpl.
  - rewrite u32_small by (change (2 ^ 32) with 4294967296; lia).
    unfold typed. simpl.
    replace (Z.to_nat (len st)) with (S (Z.to_nat (len st - 1))) by lia.
    rewrite removelast_take by lia.
    repeat split. lia.
  - assert (E0 : len st = 0) by lia. unfold typed. rewrite E0. simpl.
    rewrite take_0. repeat split.
Qed.

(** X1.  BackSpace removes the last byte of the typed password and
    nothing else; when nothing is typed it changes nothing, [len] stays
    0 and does not wrap around.  It makes no call beyond those at the
    head of the loop body. *)
Theorem BackSpace_removes_last_byte (f : flags) (w : world) (st : lock)
    (ev : XEvent) :
  store_ok st -> is_BackSpace_press ev ->
  let st' := fst (loop_body f w st ev) in
  typed st' = removelast (typed st) /\
  len st' = Z.max 0 (len st - 1) /\
  passwd st' = passwd st /\
  running st' = running st /\
  snd (loop_body f w st ev) = dpms_calls f w st.
Proof.
  intros Hok [Ht Hk] st'. unfold st'.
  rewrite loop_body_key by exact Ht.
  rewrite key_press_BackSpace by exact Hk.
  destruct (case_BackSpace_typed st Hok) as (H1 & H2 & H3 & H4 & H5).
  destruct (case_BackSpace st) as [st1 t]. cbn [fst snd] in *.
  subst t. rewrite app_nil_r. repeat split; assumption.
Qed.

Lemma BackSpace_removes_last_byte_witness :
  len (fst (loop_body default_flags (world_reject []) st_locked
              (key XK_BackSpace [8]))) = 0 /\
  typed (fst (loop_body default_flags (world_reject []) st_typed_a
                (key XK_BackSpace [8]))) = [].
Proof.
  split.
  - apply (BackSpace_removes_last_byte default_flags (world_reject [])
             st_locked (key XK_BackSpace [8])).
    + split; [reflexivity | simpl; unfold sizeof_passwd; lia].
    + split; reflexivity.
  - apply (BackSpace_removes_last_byte default_flags (world_reject [])
             st_typed_a (key XK_BackSpace [8])).
    + split; [reflexivity | simpl; unfold sizeof_passwd; lia].
    + split; reflexivity.
Defined.

(** What [case default] does to the typed password when it appends. *)
Lemma case_default_typed (st : lock) (buf : list Z) :
  store_ok st -> (0 < length buf <= sizeof_buf)%nat ->
  iscntrl (nth O buf 0) = false ->
  len st + Z.of_nat (length buf) < sizeof_passwd ->
  typed (fst (case_default st buf)) = typed st ++ buf /\
  len (fst (case_default st buf)) = len st + Z.of_nat (length buf) /\
  running (fst (case_default st buf)) = running st /\
  snd (case_default st buf) = [].
Proof.
  intros Hok Hb Hc Hroom.
  destruct (case_default_spec st buf Hok (proj2 Hb)) as [Happ _].
  rewrite Happ.
  2:{ split; [| split; [exact Hc | exact Hroom]].
      intros ->. simpl in Hb. lia. }
  cbn [fst snd]. repeat split. unfold typed. cbn [len passwd].
  destruct Hok as [Hp Hl]. unfold sizeof_passwd in *.
  rewrite memcpy_take_drop by lia.
  rewrite app_assoc.
  rewrite take_app_length'; [reflexivity |].
  rewrite length_app, length_take. lia.
Qed.

(** X2.  A key press whose string is appended extends the typed
    password by exactly that string; a BackSpace after it takes away
    the last byte of the string only, so that a string of one byte
    followed by BackSpace gives back the typed password as it was. *)
Theorem append_then_BackSpace (f : flags) (w : world) (st : lock)
    (ev bs : XEvent) :
  store_ok st -> is_default_press ev -> is_BackSpace_press bs ->
  let s := xkey_string ev in
  (0 < length s <= sizeof_buf)%nat ->
  iscntrl (nth O s 0) = false ->
  len st + Z.of_nat (length s) < sizeof_passwd ->
  let st1 := fst (loop_body f w st ev) in
  let st2 := fst (loop_body f w st1 bs) in
  typed st1 = typed st ++ s /\
  typed st2 = typed st ++ removelast s /\
  (length s = 1%nat -> typed st2 = typed st /\ len st2 = len st).
Proof.
  intros Hok Hd Hbs s Hs Hc Hroom st1 st2.
  assert (H1 : typed st1 = typed st ++ s /\ len st1 = len st + Z.of_nat (length s)).
  { unfold st1. rewrite loop_body_key by apply Hd.
    rewrite key_press_default by exact Hd. cbn [fst].
    rewrite take_ge by (fold s; lia). fold s.
    destruct (case_default_typed st s Hok Hs Hc Hroom) as (H & H' & _).
    split; assumption. }
  assert (Hok1 : store_ok st1) by (apply loop_body_store_ok; exact Hok).
  assert (Hb2 : typed st2 = removelast (typed st1) /\
                len st2 = Z.max 0 (len st1 - 1)).
  { unfold st2. rewrite loop_body_key by apply Hbs.
    rewrite key_press_BackSpace by apply Hbs. cbn [fst].
    destruct (case_BackSpace_typed st1 Hok1) as (H & H' & _).
    split; assumption. }
  destruct Hb2 as [H2 H3].
  destruct H1 as [H1 Hl1].
  assert (Hne : s <> []) by (intros E; rewrite E in Hs; simpl in Hs; lia).
  split; [exact H1 |]. split.
  - rewrite H2, H1. apply removelast_app. exact Hne.
  - intros Hone. rewrite H2, H1, H3, Hl1, Hone.
    destruct s as [| a [| b s']]; try discriminate Hone.
    rewrite removelast_last. destruct Hok as [_ Hl]. split; [reflexivity | lia].
Qed.

Lemma append_then_BackSpace_witness :
  typed (fst (loop_body default_flags (world_reject [])
                (fst (loop_body default_flags (world_reject []) st_typed_a
                        (key 98 [98])))
                (key XK_BackSpace [8]))) = typed st_typed_a.
Proof.
  apply (append_then_BackSpace default_flags (world_reject []) st_typed_a
           (key 98 [98]) (key XK_BackSpace [8])).
  - split; [reflexivity | simpl; unfold sizeof_passwd; lia].
  - repeat split; simpl; discriminate.
  - split; reflexivity.
  - unfold sizeof_buf. simpl. lia.
  - reflexivity.
  - simpl. unfold sizeof_passwd. lia.
  - reflexivity.
Defined.

(** X3.  Escape discards the typed password: [len] becomes 0.  It does
    not contact PAM, keeps the lock, and leaves every byte of [passwd]
    as it was. *)
Theorem Escape_discards_typed (f : flags) (w : world) (st : lock) (ev : XEvent) :
  is_Escape_press ev ->
  let st' := fst (loop_body f w st ev) in
  typed st' = [] /\ len st' = 0 /\ passwd st' = passwd st /\
  running st' = running st /\ auth_calls st' = auth_calls st /\
  snd (loop_body f w st ev) = dpms_calls f w st.
Proof.
  intros [Ht Hk] st'. unfold st'.
  rewrite loop_body_key by exact Ht.
  rewrite key_press_Escape by exact Hk.
  unfold case_Escape, typed. cbn [fst snd len passwd running auth_calls].
  rewrite app_nil_r. repeat split.
Qed.

Lemma Escape_discards_typed_witness :
  typed (fst (loop_body default_flags (world_reject []) st_typed_a
                (key XK_Escape [27]))) = [] /\
  passwd (fst (loop_body default_flags (world_reject []) st_typed_a
                 (key XK_Escape [27]))) !! O = Some 97.
Proof.
  destruct (Escape_discards_typed default_flags (world_reject []) st_typed_a
              (key XK_Escape [27])) as (H1 & _ & H3 & _).
  - split; reflexivity.
  - split; [exact H1 | rewrite H3; reflexivity].
Defined.

(** The loop body looks at an event through its type, the first 32
    bytes of its string and its key symbol after the keypad step. *)
Lemma loop_body_ext (f : flags) (w : world) (st : lock) (ev ev' : XEvent) :
  type ev = type ev' -> xkey_string ev = xkey_string ev' ->
  keypad_ksym (xkey_keysym ev) = keypad_ksym (xkey_keysym ev') ->
  loop_body f w st ev = loop_body f w st ev'.
Proof.
  intros Ht Hs Hk. unfold loop_body, key_press, XLookupString.
  rewrite Ht, Hs, Hk. reflexivity.
Qed.

Lemma keypad_ksym_digit (d : Z) :
  0 <= d <= 9 ->
  keypad_ksym (XK_KP_0 + d) = XK_0 + d /\ keypad_ksym (XK_0 + d) = XK_0 + d.
Proof.
  intros H.
  assert (Hd : d = 0 \/ d = 1 \/ d = 2 \/ d = 3 \/ d = 4 \/ d = 5 \/ d = 6 \/
               d = 7 \/ d = 8 \/ d = 9) by lia.
  repeat (destruct Hd as [-> | Hd]; [split; reflexivity |]).
  subst d. split; reflexivity.
Qed.

(** X4.  A digit key of the keypad is handled exactly as the digit key
    of the main block, and the Enter key of the keypad exactly as
    Return: the loop body gives the same state and makes the same
    calls. *)
Theorem keypad_keys_as_main_keys (f : flags) (w : world) (st : lock)
    (ev ev' : XEvent) :
  type ev = type ev' -> xkey_string ev = xkey_string ev' ->
  (exists d : Z, 0 <= d <= 9 /\ xkey_keysym ev = XK_KP_0 + d /\
                 xkey_keysym ev' = XK_0 + d) \/
  (xkey_keysym ev = XK_KP_Enter /\ xkey_keysym ev' = XK_Return) ->
  loop_body f w st ev = loop_body f w st ev'.
Proof.
  intros Ht Hs Hk. apply loop_body_ext; [exact Ht | exact Hs |].
  destruct Hk as [(d & Hd & -> & ->) | [-> ->]].
  - destruct (keypad_ksym_digit d Hd) as [-> ->]. reflexivity.
  - reflexivity.
Qed.

Lemma keypad_keys_as_main_keys_witness :
  loop_body default_flags (world_reject []) st_typed_a (key 0xffb5 [53]) =
  loop_body default_flags (world_reject []) st_typed_a (key 0x35 [53]).
Proof.
  apply keypad_keys_as_main_keys; [reflexivity | reflexivity |].
  left. exists 5. split; [lia | split; reflexivity].
Defined.

Lemma keypad_ksym_other (k : Z) :
  IsKeypadKey k = false \/
  (k <> XK_KP_Enter /\ ~ (XK_KP_0 <= k <= XK_KP_9)) ->
  keypad_ksym k = k.
Proof.
  intros H. unfold keypad_ksym.
  destruct (IsKeypadKey k) eqn:E; [| reflexivity].
  destruct H as [H | [H1 H2]]; [discriminate |].
  destruct (Z.eqb_spec k XK_KP_Enter); [contradiction |].
  destruct (Z.leb_spec XK_KP_0 k); destruct (Z.leb_spec k XK_KP_9);
    simpl; try reflexivity. exfalso. apply H2. lia.
Qed.

(** X5.  Function keys, miscellaneous function keys, the PF keys and the
    other keys of the keypad (all but Enter and the digits), and the
    private keypad keys change nothing: the state after the loop body is
    the state before it, and no call is made for the key. *)
Theorem function_keys_change_nothing (f : flags) (w : world) (st : lock)
    (ev : XEvent) :
  type ev = KeyPress ->
  let k := xkey_keysym ev in
  IsFunctionKey k = true \/ IsMiscFunctionKey k = true \/ IsPFKey k = true \/
  IsPrivateKeypadKey k = true \/
  (IsKeypadKey k = true /\ k <> XK_KP_Enter /\ ~ (XK_KP_0 <= k <= XK_KP_9)) ->
  loop_body f w st ev = (st, dpms_calls f w st).
Proof.
  intros Ht k H.
  assert (Hid : keypad_ksym k = k).
  { apply keypad_ksym_other.
    unfold IsFunctionKey, IsMiscFunctionKey, IsPFKey, IsPrivateKeypadKey,
      IsKeypadKey, XK_F1, XK_F35, XK_Select, XK_Break, XK_KP_F1, XK_KP_F4,
      XK_KP_Space, XK_KP_Equal, XK_KP_Enter, XK_KP_0, XK_KP_9 in *.
    destruct H as [H | [H | [H | [H | (_ & H1 & H2)]]]];
      [| | | | right; split; assumption];
      apply andb_prop in H as [Ha Hb];
      apply Z.leb_le in Ha; apply Z.leb_le in Hb.
    - left. apply andb_false_intro2. apply Z.leb_gt. lia.
    - left. apply andb_false_intro1. apply Z.leb_gt. lia.
    - right. split; lia.
    - left. apply andb_false_intro2. apply Z.leb_gt. lia. }
  assert (Hig : ignored_ksym (keypad_ksym k) = true).
  { rewrite Hid. unfold ignored_ksym.
    destruct H as [H | [H | [H | [H | (H & _)]]]]; rewrite H;
      rewrite ?orb_true_r; reflexivity. }
  rewrite loop_body_key by exact Ht.
  unfold key_press. simpl. fold k. rewrite Hig. simpl.
  rewrite app_nil_r. reflexivity.
Qed.

(** The key F5. *)
Lemma function_keys_change_nothing_witness :
  loop_body default_flags (world_reject []) st_typed_a (key 0xffc2 []) =
  (st_typed_a, []).
Proof.
  apply (function_keys_change_nothing default_flags (world_reject [])
           st_typed_a (key 0xffc2 [])).
  - reflexivity.
  - left. reflexivity.
Defined.

(** ** The password handed to PAM *)

Lemma c_string_app_zero (a b : list Z) : c_string (a ++ 0 :: b) = c_string a.
Proof.
  induction a as [| c a IH]; simpl; [reflexivity |].
  destruct (c =? 0); [reflexivity | rewrite IH; reflexivity].
Qed.

Lemma c_string_no_zero (a : list Z) :
  Forall (fun c => c <> 0) a -> c_string a = a.
Proof.
  induction 1 as [| c a Hc _ IH]; simpl; [reflexivity |].
  destruct (Z.eqb_spec c 0); [contradiction | rewrite IH; reflexivity].
Qed.

Lemma c_string_prefix (a : list Z) : c_string a `prefix_of` a.
Proof.
  induction a as [| c a IH]; simpl; [reflexivity |].
  destruct (c =? 0); [apply prefix_nil | apply prefix_cons; exact IH].
Qed.

Lemma c_string_terminated (st : lock) :
  store_ok st ->
  c_string (<[Z.to_nat (len st) := 0]> (passwd st)) = c_string (typed st).
Proof.
  intros [Hp Hl]. unfold typed, sizeof_passwd in *.
  rewrite insert_take_drop by (rewrite Hp; lia).
  apply c_string_app_zero.
Qed.

(** X6.  The string that a submission hands to [pam_authenticate] is
    the typed password up to its first zero byte: the typed password
    itself when no zero byte was typed, a prefix of it otherwise, and
    255 bytes at most.  A submission calls [pam_authenticate] once. *)
Theorem candidate_is_typed_password (f : flags) (w : world) (st : lock)
    (ev : XEvent) :
  store_ok st -> is_Return_press ev -> len st <> 0 ->
  let candidate := c_string (typed st) in
  (exists rest : list call,
     snd (loop_body f w st ev) =
       pam_authenticate candidate (authenticate w (auth_calls st) candidate)
       :: rest /\
     count is_auth rest = O) /\
  (length candidate <= 255)%nat /\
  candidate `prefix_of` typed st /\
  (Forall (fun c => c <> 0) (typed st) -> candidate = typed st).
Proof.
  intros Hok Hr Hl candidate.
  split; [| split; [| split]].
  - rewrite loop_body_Return by exact Hr.
    rewrite dpms_calls_typing by exact Hl.
    unfold case_Return. rewrite c_string_terminated by exact Hok.
    fold candidate.
    destruct (Z.eqb_spec (len st) 0) as [E | _]; [contradiction |].
    destruct (_ =? PAM_SUCCESS); cbn [snd app].
    + eexists. split; reflexivity.
    + eexists. split; [reflexivity |]. destruct (beep f); reflexivity.
  - pose proof (prefix_length _ _ (c_string_prefix (typed st))) as H.
    fold candidate in H. rewrite typed_length in H by exact Hok.
    destruct Hok as [_ Hb]. unfold sizeof_passwd in Hb. lia.
  - apply c_string_prefix.
  - apply c_string_no_zero.
Qed.

Lemma candidate_is_typed_password_witness :
  exists rest : list call,
    snd (loop_body default_flags (world_reject []) st_typed_a
           (key XK_Return [13])) =
      pam_authenticate [97] PAM_AUTH_ERR :: rest /\
    count is_auth rest = O.
Proof.
  apply (candidate_is_typed_password default_flags (world_reject []) st_typed_a
           (key XK_Return [13])).
  - split; [reflexivity | simpl; unfold sizeof_passwd; lia].
  - split; reflexivity.
  - simpl. lia.
Defined.

Lemma first_byte_head (p : list Z) (n : nat) (c : Z) (p' : list Z) :
  p = c :: p' -> iscntrl c = false ->
  exists rest : list Z, c_string (<[S n := 0]> p) = c :: rest.
Proof.
  intros -> Hc. simpl. destruct (Z.eqb_spec c 0) as [-> | _].
  - discriminate Hc.
  - eexists. reflexivity.
Qed.

(** One key press keeps [first_byte_typed], and does not ask PAM about
    the empty string. *)
Lemma key_press_first_byte (f : flags) (w : world) (st : lock) (ev : XEvent) :
  store_ok st -> first_byte_typed st ->
  first_byte_typed (fst (key_press f w st ev)) /\
  forallb auth_nonempty (snd (key_press f w st ev)) = true.
Proof.
  intros Hok Hf. pose proof Hok as [Hp Hl]. unfold sizeof_passwd in *.
  unfold key_press. simpl.
  destruct (ignored_ksym _); [split; [exact Hf | reflexivity] |].
  destruct (_ =? XK_Return).
  { unfold case_Return.
    destruct (Z.eqb_spec (len st) 0) as [E | E].
    - split; [| reflexivity]. intros H. simpl in H. contradiction.
    - specialize (Hf E).
      destruct (passwd st) as [| c p'] eqn:Ep; [contradiction |].
      replace (Z.to_nat (len st)) with (S (Z.to_nat (len st - 1))) by lia.
      destruct (first_byte_head (c :: p') (Z.to_nat (len st - 1)) c p' eq_refl Hf)
        as [rest Hrest].
      rewrite Hrest.
      destruct (_ =? PAM_SUCCESS); cbn [fst snd].
      + split; [intros H; simpl in H; contradiction | reflexivity].
      + split; [intros H; simpl in H; contradiction |].
        destruct (beep f); reflexivity. }
  destruct (_ =? XK_Escape).
  { split; [| reflexivity]. intros H. simpl in H. contradiction. }
  destruct (_ =? XK_BackSpace).
  { unfold case_BackSpace. destruct (Z.gtb_spec (len st) 0) as [E | E];
      (split; [| reflexivity]); [| exact Hf].
    intros _. simpl. apply Hf. lia. }
  unfold case_default.
  destruct (negb _ && negb _ && (u32 _ <? sizeof_passwd)) eqn:G;
    [| split; [exact Hf | reflexivity]].
  split; [| reflexivity]. intros _. cbn [fst passwd].
  apply andb_prop in G as [G _]. apply andb_prop in G as [Gn Gc].
  apply negb_true_iff in Gc.
  destruct (take sizeof_buf (xkey_string ev)) as [| b bs] eqn:Eb;
    [discriminate Gn |]. simpl in Gc.
  destruct (passwd st) as [| c p'] eqn:Ep; [simpl in Hp; lia |].
  unfold memcpy. destruct (Z.to_nat (len st)) as [| n] eqn:En.
  - simpl. rewrite list_inserts_cons. simpl. exact Gc.
  - rewrite list_inserts_cons.
    unfold first_byte_typed in Hf. rewrite Ep in Hf. apply Hf. lia.
Qed.

Lemma loop_body_first_byte (f : flags) (w : world) (st : lock) (ev : XEvent) :
  store_ok st -> first_byte_typed st ->
  first_byte_typed (fst (loop_body f w st ev)) /\
  forallb auth_nonempty (snd (loop_body f w st ev)) = true.
Proof.
  intros Hok Hf.
  assert (Hd : forallb auth_nonempty (dpms_calls f w st) = true).
  { unfold dpms_calls. destruct (_ && _ && _); reflexivity. }
  destruct (decide (type ev = KeyPress)) as [E | E].
  - rewrite loop_body_key by exact E. cbn [fst snd].
    destruct (key_press_first_byte f w st ev Hok Hf) as [H1 H2].
    split; [exact H1 |]. rewrite forallb_app, Hd, H2. reflexivity.
  - rewrite loop_body_other by exact E. split; [exact Hf | exact Hd].
Qed.

Lemma event_loop_first_byte (f : flags) (w : world) (evs : list XEvent) :
  forall st : lock,
    store_ok st -> first_byte_typed st ->
    forallb auth_nonempty (snd (event_loop f w st evs)) = true.
Proof.
  induction evs as [| ev evs IH]; intros st Hok Hf.
  - simpl. destruct (running st); reflexivity.
  - destruct (running st) eqn:E.
    + rewrite event_loop_cons by exact E. cbn [snd forallb auth_nonempty].
      destruct (loop_body_first_byte f w st ev Hok Hf) as [H1 H2].
      rewrite forallb_app, H2, IH;
        [reflexivity | apply loop_body_store_ok; exact Hok | exact H1].
    + rewrite event_loop_stopped by exact E. reflexivity.
Qed.

(** X7.  In no run of [main] is PAM asked about the empty string: every
    call of [pam_authenticate] is made for a password of at least one
    byte, whatever keys are pressed and whatever strings they carry. *)
Theorem never_authenticates_empty_password (w : world) :
  forallb auth_nonempty (snd (main w)) = true.
Proof.
  unfold main. destruct (startup w) as [code | f]; [reflexivity |].
  rewrite lock_screen_calls. cbn [snd].
  assert (Hg : forall (mk : Z -> call) (grab : nat -> Z) (n i : nat),
             (forall r : Z, auth_nonempty (mk r) = true) ->
             forallb auth_nonempty (snd (grab_loop mk grab i n)) = true).
  { intros mk grab n. induction n as [| n IH]; intros i Hmk; simpl; [reflexivity |].
    destruct (grab i =? GrabSuccess); simpl; [rewrite Hmk; reflexivity |].
    specialize (IH (S i) Hmk).
    destruct (grab_loop mk grab (S i) n) as [l t]. simpl in *.
    rewrite Hmk. exact IH. }
  assert (Ha : forallb auth_nonempty (snd (acquire_grabs w)) = true).
  { unfold acquire_grabs.
    pose proof (Hg XGrabPointer (grab_pointer w) 1000%nat O (fun _ => eq_refl)) as H1.
    pose proof (Hg XGrabKeyboard (grab_keyboard w) 1000%nat O (fun _ => eq_refl)) as H2.
    destruct (grab_loop XGrabPointer (grab_pointer w) O 1000) as [l1 t1].
    destruct (grab_loop XGrabKeyboard (grab_keyboard w) O 1000) as [l2 t2].
    cbn [fst snd] in *. destruct (true && (0 <? l1)%nat); cbn [snd];
      [rewrite forallb_app, H1, H2; reflexivity | exact H1]. }
  rewrite forallb_app, Ha. cbn [forallb auth_nonempty andb].
  rewrite forallb_app, event_loop_first_byte.
  - unfold teardown. destruct (negb (px_curs f w =? 0)); reflexivity.
  - split; [apply length_passwd_init | unfold sizeof_passwd; simpl; lia].
  - intros H. simpl in H. contradiction.
Qed.

(** ** How the event loop ends, and what it reports *)

(** One pass through the loop body either leaves [running] set or ends
    with a successful [pam_authenticate]. *)
Lemma loop_body_exit (f : flags) (w : world) (st : lock) (ev : XEvent) :
  running st = true ->
  running (fst (loop_body f w st ev)) = true \/
  (running (fst (loop_body f w st ev)) = false /\
   exists candidate : list Z,
     last (snd (loop_body f w st ev)) =
       Some (pam_authenticate candidate PAM_SUCCESS)).
Proof.
  intros Hrun. destruct (decide (type ev = KeyPress)) as [E | E].
  2:{ rewrite loop_body_other by exact E. left. exact Hrun. }
  rewrite loop_body_key by exact E. cbn [fst snd].
  unfold key_press. simpl.
  destruct (ignored_ksym _); [left; exact Hrun |].
  destruct (_ =? XK_Return).
  { unfold case_Return.
    destruct (len st =? 0); [left; exact Hrun |].
    destruct (Z.eqb_spec (authenticate w (auth_calls st)
                            (c_string (<[Z.to_nat (len st):=0]> (passwd st))))
                PAM_SUCCESS) as [Ea | Ea]; [| left; exact Hrun].
    right. split; [reflexivity |]. cbn [snd]. rewrite Ea.
    eexists. apply last_snoc. }
  destruct (_ =? XK_Escape); [left; exact Hrun |].
  destruct (_ =? XK_BackSpace).
  { unfold case_BackSpace. destruct (len st >? 0); left; exact Hrun. }
  unfold case_default. destruct (_ && _ && _); left; exact Hrun.
Qed.

(** The calls of a key press, counted by a predicate. *)
Lemma key_press_count (p : call -> bool) (f : flags) (w : world) (st : lock)
    (ev : XEvent) :
  count p (snd (key_press f w st ev)) =
    (count (fun c => p c && is_auth c) (snd (key_press f w st ev)) +
     count (fun c => p c && is_stderr c) (snd (key_press f w st ev)) +
     count (fun c => p c && is_bell c) (snd (key_press f w st ev)))%nat.
Proof.
  unfold key_press. simpl.
  destruct (ignored_ksym _); [reflexivity |].
  destruct (_ =? XK_Return).
  { unfold case_Return. destruct (len st =? 0); [reflexivity |].
    destruct (authenticate w _ _ =? PAM_SUCCESS); simpl.
    - destruct (p _); reflexivity.
    - destruct (beep f); simpl;
        repeat (match goal with |- context [p ?c] => destruct (p c) end; simpl);
        reflexivity. }
  destruct (_ =? XK_Escape); [reflexivity |].
  destruct (_ =? XK_BackSpace).
  { unfold case_BackSpace. destruct (len st >? 0); reflexivity. }
  unfold case_default. destruct (_ && _ && _); reflexivity.
Qed.

Lemma count_false (p : call -> bool) (t : list call) :
  (forall c : call, p c = false) -> count p t = O.
Proof.
  intros H. induction t as [| c t IH]; simpl; [reflexivity |].
  rewrite H. exact IH.
Qed.

Lemma loop_body_no_next_event (f : flags) (w : world) (st : lock) (ev : XEvent) :
  count is_next_event (snd (loop_body f w st ev)) = O.
Proof.
  destruct (decide (type ev = KeyPress)) as [E | E].
  - rewrite loop_body_key by exact E. cbn [snd].
    rewrite count_app, count_dpms_calls by reflexivity.
    rewrite key_press_count.
    rewrite !count_false; [reflexivity | | |]; intros []; reflexivity.
  - rewrite loop_body_other by exact E. apply count_dpms_calls; reflexivity.
Qed.

Lemma last_app_Some_r (a b : list call) (c : call) :
  last b = Some c -> last (a ++ b) = Some c.
Proof. intros H. rewrite last_app, H. reflexivity. Qed.

Lemma event_loop_exit (f : flags) (w : world) (evs : list XEvent) :
  forall st : lock,
    running st = true ->
    (running (fst (event_loop f w st evs)) = true /\
     last (snd (event_loop f w st evs)) = Some (XNextEvent 1) /\
     count is_next_event (snd (event_loop f w st evs)) = S (length evs)) \/
    (running (fst (event_loop f w st evs)) = false /\
     exists candidate : list Z,
       last (snd (event_loop f w st evs)) =
         Some (pam_authenticate candidate PAM_SUCCESS)).
Proof.
  induction evs as [| ev evs IH]; intros st Hrun.
  - left. simpl. rewrite Hrun. simpl. rewrite Hrun. repeat split.
  - rewrite event_loop_cons by exact Hrun. cbn [fst snd].
    destruct (loop_body_exit f w st ev Hrun) as [H1 | [H1 [cand Hc]]].
    + destruct (IH _ H1) as [(Hr & Hlast & Hcnt) | (Hr & cand & Hlast)].
      * left. split; [exact Hr |]. split.
        -- change (XNextEvent 0 :: ?a ++ ?b) with ((XNextEvent 0 :: a) ++ b).
           apply last_app_Some_r. exact Hlast.
        -- cbn [count is_next_event]. rewrite count_app, Hcnt.
           rewrite loop_body_no_next_event. reflexivity.
      * right. split; [exact Hr |]. exists cand.
        change (XNextEvent 0 :: ?a ++ ?b) with ((XNextEvent 0 :: a) ++ b).
        apply last_app_Some_r. exact Hlast.
    + right. rewrite event_loop_stopped by exact H1. cbn [fst snd].
      split; [exact H1 |]. exists cand. rewrite app_nil_r.
      change (XNextEvent 0 :: ?a) with ([XNextEvent 0] ++ a).
      apply last_app_Some_r. exact Hc.
Qed.

(** X8.  Once both grabs are held, the lock is given up in two ways
    only: [pam_authenticate] returned [PAM_SUCCESS], and that is the
    last call before the calls that end the lock; or [XNextEvent]
    failed, after every event the server delivered was read.  No key
    press and no other event ends the loop. *)
Theorem lock_ends_by_success_or_event_failure (f : flags) (w : world) :
  fst (acquire_grabs w) = true ->
  exists t : list call,
    snd (lock_screen f w) = snd (acquire_grabs w) ++ XSync :: t ++ teardown f w /\
    ((last t = Some (XNextEvent 1) /\
      count is_next_event t = S (length (events w)) /\
      count is_unlock t = O) \/
     (exists candidate : list Z,
        last t = Some (pam_authenticate candidate PAM_SUCCESS))).
Proof.
  intros Hg. rewrite lock_screen_calls, Hg. cbn [snd].
  eexists. split; [reflexivity |].
  set (st := {| passwd := passwd_init; len := 0; running := true;
                auth_calls := O |}).
  destruct (event_loop_exit f w (events w) st eq_refl)
    as [(Hr & Hlast & Hcnt) | (_ & cand & Hlast)].
  - left. split; [exact Hlast |]. split; [exact Hcnt |].
    rewrite event_loop_unlock by reflexivity. rewrite Hr. reflexivity.
  - right. exists cand. exact Hlast.
Qed.

Lemma lock_ends_by_success_or_event_failure_witness :
  exists t : list call,
    snd (lock_screen default_flags (world_accept [key 97 [97]; key XK_Return [13]])) =
      snd (acquire_grabs (world_accept [key 97 [97]; key XK_Return [13]])) ++
      XSync :: t ++
      teardown default_flags (world_accept [key 97 [97]; key XK_Return [13]]) /\
    ((last t = Some (XNextEvent 1) /\
      count is_next_event t = 3%nat /\ count is_unlock t = O) \/
     (exists candidate : list Z,
        last t = Some (pam_authenticate candidate PAM_SUCCESS))).
Proof.
  apply (lock_ends_by_success_or_event_failure default_flags
           (world_accept [key 97 [97]; key XK_Return [13]])).
  reflexivity.
Defined.

(** ** What a failed attempt reports *)

Lemma loop_body_reports (f : flags) (w : world) (st : lock) (ev : XEvent) :
  let t := snd (loop_body f w st ev) in
  count is_bell t = (if beep f then count is_failed_auth t else O) /\
  count is_stderr t = count is_failed_auth t /\
  count is_auth t = (count is_failed_auth t + count is_unlock t)%nat.
Proof.
  intros t. unfold t. clear t.
  destruct (decide (type ev = KeyPress)) as [E | E].
  2:{ rewrite loop_body_other by exact E. cbn [snd].
      rewrite !count_dpms_calls by reflexivity.
      destruct (beep f); repeat split. }
  rewrite loop_body_key by exact E. cbn [snd].
  rewrite !count_app, !count_dpms_calls by reflexivity.
  unfold key_press. simpl.
  destruct (ignored_ksym _); [destruct (beep f); repeat split |].
  destruct (_ =? XK_Return).
  { unfold case_Return.
    destruct (len st =? 0); [destruct (beep f); repeat split |].
    destruct (authenticate w _ _ =? PAM_SUCCESS) eqn:Ea; simpl; rewrite Ea;
      destruct (beep f); repeat split. }
  destruct (_ =? XK_Escape); [destruct (beep f); repeat split |].
  destruct (_ =? XK_BackSpace).
  { unfold case_BackSpace. destruct (len st >? 0); destruct (beep f); repeat split. }
  unfold case_default. destruct (_ && _ && _); destruct (beep f); repeat split.
Qed.

(** X9.  Over a whole run of the event loop: a line goes to standard
    error for every failed attempt; the bell rings once for every
    failed attempt when [beep] is set and never when it is not; and
    every call of [pam_authenticate] is either a failed attempt or the
    one that unlocks. *)
Theorem failed_attempts_are_reported (f : flags) (w : world) (st : lock)
    (evs : list XEvent) :
  let t := snd (event_loop f w st evs) in
  count is_bell t = (if beep f then count is_failed_auth t else O) /\
  count is_stderr t = count is_failed_auth t /\
  count is_auth t = (count is_failed_auth t + count is_unlock t)%nat.
Proof.
  intros t. unfold t. clear t. revert st.
  induction evs as [| ev evs IH]; intros st.
  - simpl. destruct (running st); destruct (beep f); repeat split.
  - destruct (running st) eqn:E.
    2:{ rewrite event_loop_stopped by exact E.
        destruct (beep f); repeat split. }
    rewrite event_loop_cons by exact E. cbn [snd count is_bell is_stderr
      is_auth is_failed_auth is_unlock].
    rewrite !count_app.
    destruct (loop_body_reports f w st ev) as (B1 & B2 & B3).
    destruct (IH (fst (loop_body f w st ev))) as (I1 & I2 & I3).
    rewrite B1, B2, B3, I1, I2, I3.
    destruct (beep f); repeat split; lia.
Qed.

(** * Further properties of the grab loops *)

(** A grab that first succeeds at retry [k]. *)
Lemma grab_loop_succeeds (mk : Z -> call) (grab : nat -> Z) (k : nat) :
  forall n i : nat,
    (k < n)%nat ->
    (forall j : nat, (i <= j < i + k)%nat -> grab j <> GrabSuccess) ->
    grab (i + k)%nat = GrabSuccess ->
    grab_loop mk grab i n =
      ((n - k)%nat,
       flat_map (fun j => [mk (grab j); usleep 1000]) (seq i k) ++
       [mk GrabSuccess]).
Proof.
  induction k as [| k IH]; intros n i Hk Hfail Hok.
  - destruct n as [| n]; [lia |]. simpl.
    rewrite Nat.add_0_r in Hok. rewrite Hok. reflexivity.
  - destruct n as [| n]; [lia |]. simpl.
    destruct (Z.eqb_spec (grab i) GrabSuccess) as [E | _].
    + exfalso. apply (Hfail i); [lia | exact E].
    + rewrite (IH n (S i)); [reflexivity | lia | |].
      * intros j Hj. apply Hfail. lia.
      * replace (S i + k)%nat with (i + S k)%nat by lia. exact Hok.
Qed.

(** X10.  When the grab fails [k] times and then succeeds, with [k]
    below the number [N] of attempts allowed, the loop stops at once:
    it has called the grab [k + 1] times and slept [k] times, the
    successful grab is its last call with no sleep after it, and [len]
    is left at [N - k], which is not 0. *)
Theorem grab_loop_stops_at_first_success (mk : Z -> call) (grab : nat -> Z)
    (N k : nat) :
  mk = XGrabPointer \/ mk = XGrabKeyboard ->
  (k < N)%nat ->
  (forall j : nat, (j < k)%nat -> grab j <> GrabSuccess) ->
  grab k = GrabSuccess ->
  let l := fst (grab_loop mk grab O N) in
  let t := snd (grab_loop mk grab O N) in
  l = (N - k)%nat /\ (0 <? l)%nat = true /\
  count is_grab t = S k /\ count is_usleep t = k /\
  last t = Some (mk GrabSuccess).
Proof.
  intros Hmk Hk Hfail Hok l t. unfold l, t.
  rewrite (grab_loop_succeeds mk grab k N O Hk)
    by (try exact Hok; intros j Hj; apply Hfail; lia).
  cbn [fst snd]. split; [reflexivity |].
  split; [apply Nat.ltb_lt; lia |].
  rewrite !count_app, last_snoc.
  rewrite (count_attempts mk grab is_grab true false)
    by (try reflexivity; intros r; destruct Hmk as [-> | ->]; reflexivity).
  rewrite (count_attempts mk grab is_usleep false true)
    by (try reflexivity; intros r; destruct Hmk as [-> | ->]; reflexivity).
  rewrite length_seq.
  destruct Hmk as [-> | ->]; simpl; repeat split; lia.
Qed.

Lemma grab_loop_stops_at_first_success_witness :
  snd (grab_loop XGrabPointer
         (fun i => if (i <? 2)%nat then AlreadyGrabbed else GrabSuccess) O 1000) =
    [XGrabPointer 1; usleep 1000; XGrabPointer 1; usleep 1000; XGrabPointer 0] /\
  count is_usleep
    (snd (grab_loop XGrabPointer
            (fun i => if (i <? 2)%nat then AlreadyGrabbed else GrabSuccess)
            O 1000)) = 2%nat.
Proof.
  split; [reflexivity |].
  apply (grab_loop_stops_at_first_success XGrabPointer
           (fun i => if (i <? 2)%nat then AlreadyGrabbed else GrabSuccess)
           1000 2).
  - left. reflexivity.
  - lia.
  - intros j Hj. destruct (Nat.ltb_spec j 2); [discriminate | lia].
  - reflexivity.
Defined.

(** The loop ends with [len > 0] exactly when one of its attempts
    succeeds. *)
Lemma grab_loop_positive (mk : Z -> call) (grab : nat -> Z) (n : nat) :
  forall i : nat,
    (0 <? fst (grab_loop mk grab i n))%nat = true <->
    exists j : nat, (i <= j < i + n)%nat /\ grab j = GrabSuccess.
Proof.
  induction n as [| n IH]; intros i; simpl.
  - split; [discriminate | intros (j & Hj & _); lia].
  - destruct (Z.eqb_spec (grab i) GrabSuccess) as [E | E].
    + simpl. split; [| reflexivity]. intros _. exists i. split; [lia | exact E].
    + specialize (IH (S i)).
      destruct (grab_loop mk grab (S i) n) as [l t]. cbn [fst] in *.
      rewrite IH. split; intros (j & Hj & Hg).
      * exists j. split; [lia | exact Hg].
      * exists j. split; [| exact Hg].
        destruct (decide (j = i)) as [-> | Hne]; [contradiction | lia].
Qed.

(** X11.  After the two grab loops [running] is set exactly when the
    pointer grab succeeds at one of its 1000 attempts and the keyboard
    grab succeeds at one of its 1000 attempts. *)
Theorem running_iff_both_grabs_succeed (w : world) :
  fst (acquire_grabs w) = true <->
  (exists i : nat, (i < 1000)%nat /\ grab_pointer w i = GrabSuccess) /\
  (exists j : nat, (j < 1000)%nat /\ grab_keyboard w j = GrabSuccess).
Proof.
  unfold acquire_grabs.
  pose proof (grab_loop_positive XGrabPointer (grab_pointer w) 1000 O) as Hp.
  pose proof (grab_loop_positive XGrabKeyboard (grab_keyboard w) 1000 O) as Hk.
  destruct (grab_loop XGrabPointer (grab_pointer w) O 1000) as [l1 t1].
  destruct (grab_loop XGrabKeyboard (grab_keyboard w) O 1000) as [l2 t2].
  cbn [fst] in *. cbn [andb].
  assert (Hp' : (0 <? l1)%nat = true <->
                exists i : nat, (i < 1000)%nat /\ grab_pointer w i = GrabSuccess).
  { rewrite Hp. split; intros (i & Hi & H); exists i; (split; [lia | exact H]). }
  assert (Hk' : (0 <? l2)%nat = true <->
                exists j : nat, (j < 1000)%nat /\ grab_keyboard w j = GrabSuccess).
  { rewrite Hk. split; intros (i & Hi & H); exists i; (split; [lia | exact H]). }
  rewrite <- Hp', <- Hk'.
  destruct (0 <? l1)%nat; cbn [fst].
  - split; [intros H; split; [reflexivity | exact H] | intros [_ H]; exact H].
  - split; [discriminate | intros [H _]; discriminate H].
Qed.

Lemma grab_loop_bounds (mk : Z -> call) (grab : nat -> Z) (n : nat) :
  mk = XGrabPointer \/ mk = XGrabKeyboard ->
  forall i : nat,
    (count is_usleep (snd (grab_loop mk grab i n)) <=
     count is_grab (snd (grab_loop mk grab i n)) <= n)%nat.
Proof.
  intros Hmk.
  assert (Hg : forall r : Z, is_grab (mk r) = true /\ is_usleep (mk r) = false)
    by (intros r; destruct Hmk as [-> | ->]; split; reflexivity).
  induction n as [| n IH]; intros i; simpl; [lia |].
  destruct (grab i =? GrabSuccess); simpl.
  - destruct (Hg (grab i)) as [-> ->]. simpl. lia.
  - specialize (IH (S i)). destruct (grab_loop mk grab (S i) n) as [l t].
    simpl in *. destruct (Hg (grab i)) as [-> ->]. simpl. lia.
Qed.

Lemma count_loop_calls (p : call -> bool) (t : list call) :
  forallb is_loop_call t = true ->
  (forall c : call, is_loop_call c = true -> p c = false) ->
  count p t = O.
Proof.
  intros Ht Hp. induction t as [| c t IH]; [reflexivity |].
  simpl in Ht. apply andb_prop in Ht as [Hc Ht].
  simpl. rewrite (Hp c Hc). exact (IH Ht).
Qed.

(** X12.  The retries are bounded: in every run [main] calls the two
    grabs at most 2000 times together, and sleeps at most once per
    grab call, so at most 2000 times 1000 microseconds, before it
    either holds both grabs or gives up. *)
Theorem grab_retries_are_bounded (w : world) :
  (count is_usleep (snd (main w)) <= count is_grab (snd (main w)) <= 2000)%nat.
Proof.
  unfold main. destruct (startup w) as [code | f]; [simpl; lia |].
  rewrite lock_screen_calls. cbn [snd].
  assert (Hrest : forall p : call -> bool,
             (forall c : call, is_loop_call c = true -> p c = false) ->
             p XSync = false -> p XUngrabPointer = false ->
             p XFreePixmap = false -> p XDestroyWindow = false ->
             p XCloseDisplay = false ->
             forall st : lock,
               count p (XSync :: snd (event_loop f w st (events w)) ++
                        teardown f w) = O).
  { intros p Hl H1 H2 H3 H4 H5 st. cbn [count]. rewrite H1, count_app.
    rewrite (count_loop_calls p _ (event_loop_loop_calls f w (events w) st) Hl).
    apply count_teardown; assumption. }
  rewrite !count_app.
  rewrite !Hrest by (try reflexivity; intros []; (reflexivity || discriminate)).
  unfold acquire_grabs.
  pose proof (grab_loop_bounds XGrabPointer (grab_pointer w) 1000
                (or_introl eq_refl) O) as H1.
  pose proof (grab_loop_bounds XGrabKeyboard (grab_keyboard w) 1000
                (or_intror eq_refl) O) as H2.
  destruct (grab_loop XGrabPointer (grab_pointer w) O 1000) as [l1 t1].
  destruct (grab_loop XGrabKeyboard (grab_keyboard w) O 1000) as [l2 t2].
  cbn [fst snd] in *. destruct (true && (0 <? l1)%nat); cbn [snd].
  - rewrite !count_app. lia.
  - lia.
Qed.

(** * Further properties of the conversation function *)

Lemma conv_loop_no_prompt (al : allocator) (pw : list Z) (ms : list pam_message) :
  forall (c : nat) (arr : list pam_response),
    forallb (fun m => negb (echo_prompt m)) ms = true ->
    conv_loop al pw ms c arr = conv_return 0 (Some arr).
Proof.
  induction ms as [| m ms IH]; intros c arr H; [reflexivity |].
  simpl in H. apply andb_prop in H as [Hm Hms].
  apply negb_true_iff in Hm.
  rewrite conv_loop_skip by exact Hm. apply IH. exact Hms.
Qed.

(** Past the first message, when some message is a prompt, the loop
    stops at the first one that is. *)
Lemma conv_loop_first_prompt (al : allocator) (pw : list Z)
    (ms : list pam_message) :
  forall (c : nat) (arr : list pam_response),
    existsb echo_prompt ms = true ->
    exists k : nat,
      (k < length ms)%nat /\
      conv_loop al pw ms (S c) arr = conv_undefined (S c + k) /\
      (echo_prompt <$> ms !! k) = Some true /\
      (forall j : nat, (j < k)%nat -> (echo_prompt <$> ms !! j) = Some false).
Proof.
  induction ms as [| m ms IH]; intros c arr H; [discriminate H |].
  destruct (echo_prompt m) eqn:E.
  - exists O. split; [simpl; lia |]. split; [| split].
    + rewrite Nat.add_0_r. unfold echo_prompt in E. simpl.
      destruct (msg_style m =? PAM_PROMPT_ECHO_OFF);
        destruct (msg_style m =? PAM_PROMPT_ECHO_ON);
        try reflexivity; discriminate E.
    + simpl. rewrite E. reflexivity.
    + intros j Hj. lia.
  - simpl in H. rewrite E in H. simpl in H.
    destruct (IH (S c) arr H) as (k & Hk & Hu & Hm & Hfirst).
    exists (S k). split; [simpl; lia |]. split; [| split].
    + rewrite conv_loop_skip by exact E. rewrite Hu. f_equal. lia.
    + exact Hm.
    + intros j Hj. destruct j as [| j]; [simpl; rewrite E; reflexivity |].
      simpl. apply Hfirst. lia.
Qed.

(** X13.  When [calloc] succeeds, what the callback does with a
    conversation is decided by its first message and by whether a later
    message is a prompt.  With no prompt after the first message it
    returns an array with one record per message, all of them empty but
    possibly the first, which holds a copy of the password when the
    first message is a prompt; it returns 1 instead of 0 when that copy
    cannot be made.  When the first message is a prompt and the copy
    cannot be made, it returns 1 at once, whatever the later messages
    are.  In every other case, that is when a later message is a prompt
    and the first message is no prompt or its copy was made, it runs
    into the undefined access, at the first later message that is a
    prompt. *)
Theorem conv_callback_defined_for_first_prompt_only (al : allocator)
    (pw : list Z) (m : pam_message) (ms : list pam_message)
    (star_resp : option (list pam_response)) :
  calloc al = true ->
  let empty := {| resp := None; resp_retcode := 0 |} in
  (forallb (fun m' => negb (echo_prompt m')) ms = true ->
     conv_callback al pw (m :: ms) star_resp =
       if negb (echo_prompt m)
       then conv_return 0 (Some (replicate (S (length ms)) empty))
       else if strdup al O
            then conv_return 0
                   (Some ({| resp := Some (c_string pw); resp_retcode := 0 |}
                          :: replicate (length ms) empty))
            else conv_return 1 (Some (replicate (S (length ms)) empty))) /\
  (echo_prompt m = true -> strdup al O = false ->
     conv_callback al pw (m :: ms) star_resp =
       conv_return 1 (Some (replicate (S (length ms)) empty))) /\
  (existsb echo_prompt ms = true ->
   echo_prompt m = false \/ strdup al O = true ->
     exists c : nat,
       (1 <= c <= length ms)%nat /\
       conv_callback al pw (m :: ms) star_resp = conv_undefined c /\
       (echo_prompt <$> (m :: ms) !! c) = Some true /\
       (forall j : nat, (1 <= j < c)%nat ->
          (echo_prompt <$> (m :: ms) !! j) = Some false)).
Proof.
  intros Hc empty.
  assert (Hstep : forall arr0 : list pam_response,
            conv_loop al pw (m :: ms) O (empty :: arr0) =
              if negb (echo_prompt m) then conv_loop al pw ms 1 (empty :: arr0)
              else if strdup al O
                   then conv_loop al pw ms 1
                          ({| resp := Some (c_string pw); resp_retcode := 0 |}
                           :: arr0)
                   else conv_return 1 (Some (empty :: arr0))).
  { intros arr0. unfold echo_prompt. simpl.
    destruct (msg_style m =? PAM_PROMPT_ECHO_OFF);
      destruct (msg_style m =? PAM_PROMPT_ECHO_ON); simpl; try reflexivity;
      destruct (strdup al O); reflexivity. }
  assert (Hcall : conv_callback al pw (m :: ms) star_resp =
                  conv_loop al pw (m :: ms) O (empty :: replicate (length ms) empty)).
  { unfold conv_callback. simpl. rewrite Hc. reflexivity. }
  rewrite Hcall, Hstep. split; [| split].
  - intros Hn. rewrite !conv_loop_no_prompt by exact Hn. reflexivity.
  - intros He Hs. rewrite He, Hs. reflexivity.
  - intros He Hs.
    assert (Hgo : forall arr : list pam_response,
               exists c : nat,
                 (1 <= c <= length ms)%nat /\
                 conv_loop al pw ms 1 arr = conv_undefined c /\
                 (echo_prompt <$> (m :: ms) !! c) = Some true /\
                 (forall j : nat, (1 <= j < c)%nat ->
                    (echo_prompt <$> (m :: ms) !! j) = Some false)).
    { intros arr.
      destruct (conv_loop_first_prompt al pw ms O arr He)
        as (k & Hk & Hu & Hm & Hfirst).
      exists (S k). split; [lia |]. split; [exact Hu |]. split; [exact Hm |].
      intros j Hj. destruct j as [| j]; [lia |]. simpl. apply Hfirst. lia. }
    destruct (echo_prompt m) eqn:E; simpl; [| apply Hgo].
    destruct Hs as [Hs | Hs]; [discriminate Hs |].
    rewrite Hs. apply Hgo.
Qed.

(** A prompt followed by a text; two prompts of which the first gets no
    copy; a text followed by another text and a prompt. *)
Lemma conv_callback_defined_for_first_prompt_only_witness :
  conv_callback {| calloc := true; strdup := fun _ => true |} [97; 98; 0; 99]
    [{| msg_style := PAM_PROMPT_ECHO_OFF; msg := [] |};
     {| msg_style := PAM_TEXT_INFO; msg := [] |}] None =
  conv_return 0
    (Some [{| resp := Some [97; 98]; resp_retcode := 0 |};
           {| resp := None; resp_retcode := 0 |}]) /\
  conv_callback {| calloc := true; strdup := fun _ => false |} [97; 98; 0; 99]
    [{| msg_style := PAM_PROMPT_ECHO_OFF; msg := [] |};
     {| msg_style := PAM_PROMPT_ECHO_OFF; msg := [] |}] None =
  conv_return 1
    (Some [{| resp := None; resp_retcode := 0 |};
           {| resp := None; resp_retcode := 0 |}]) /\
  exists c : nat,
    (1 <= c <= 2)%nat /\
    conv_callback {| calloc := true; strdup := fun _ => true |} [97; 98; 0; 99]
      [{| msg_style := PAM_TEXT_INFO; msg := [] |};
       {| msg_style := PAM_ERROR_MSG; msg := [] |};
       {| msg_style := PAM_PROMPT_ECHO_ON; msg := [] |}] None =
    conv_undefined c.
Proof.
  split; [| split].
  - apply (proj1 (conv_callback_defined_for_first_prompt_only
                    {| calloc := true; strdup := fun _ => true |} [97; 98; 0; 99]
                    {| msg_style := PAM_PROMPT_ECHO_OFF; msg := [] |}
                    [{| msg_style := PAM_TEXT_INFO; msg := [] |}] None eq_refl)).
    reflexivity.
  - apply (proj1 (proj2 (conv_callback_defined_for_first_prompt_only
                    {| calloc := true; strdup := fun _ => false |} [97; 98; 0; 99]
                    {| msg_style := PAM_PROMPT_ECHO_OFF; msg := [] |}
                    [{| msg_style := PAM_PROMPT_ECHO_OFF; msg := [] |}] None
                    eq_refl))); reflexivity.
  - destruct (proj2 (proj2 (conv_callback_defined_for_first_prompt_only
                    {| calloc := true; strdup := fun _ => true |} [97; 98; 0; 99]
                    {| msg_style := PAM_TEXT_INFO; msg := [] |}
                    [{| msg_style := PAM_ERROR_MSG; msg := [] |};
                     {| msg_style := PAM_PROMPT_ECHO_ON; msg := [] |}] None
                    eq_refl)) eq_refl (or_introl eq_refl))
      as (c & Hc & Hu & _).
    exists c. split; [exact Hc | exact Hu].
Defined.

(** * Further properties of the options *)

Lemma set_option_accepted (f : flags) (opt : option_char) :
  (accepted_option opt = true ->
   exists f' : flags,
     set_option f opt = inr f' /\
     dont_fork f' = dont_fork f || is_opt_n opt /\
     beep f' = beep f || is_opt_b opt /\
     dpms f' = dpms f || is_opt_d opt /\
     xpm_image f' = xpm_image f || is_opt_i opt /\
     tiling f' = tiling f || is_opt_t opt) /\
  (accepted_option opt = false ->
   set_option f opt = inl (rejected_status opt)).
Proof.
  assert (Hsame : exists f' : flags,
             inr f = @inr Z flags f' /\
             dont_fork f' = dont_fork f || false /\ beep f' = beep f || false /\
             dpms f' = dpms f || false /\ xpm_image f' = xpm_image f || false /\
             tiling f' = tiling f || false).
  { exists f. rewrite !orb_false_r. repeat split. }
  destruct opt; simpl; (split; [intros H | intros H]); try discriminate H;
    try reflexivity;
    try (eexists; split; [reflexivity |]; simpl;
         rewrite ?orb_false_r, ?orb_true_r; repeat split).
  - destruct (color_is_invalid optarg); [discriminate H | exact Hsame].
  - destruct (color_is_invalid optarg); [reflexivity | discriminate H].
  - destruct (list_Z_eqb _ str_default);
      [| destruct (list_Z_eqb _ str_win); [| exact Hsame]];
      (eexists; split; [reflexivity |]; simpl;
       rewrite ?orb_false_r; repeat split).
Qed.

(** X14.  When the options are all accepted, each of the flags
    [dont_fork], [beep], [dpms], [xpm_image] and [tiling] is set
    exactly when it was set before or its option occurs: no option
    clears a flag, and the order and the number of the occurrences make
    no difference. *)
Theorem options_only_set_flags (opts : list option_char) (f f' : flags) :
  parse_options f opts = inr f' ->
  forallb accepted_option opts = true /\
  dont_fork f' = dont_fork f || existsb is_opt_n opts /\
  beep f' = beep f || existsb is_opt_b opts /\
  dpms f' = dpms f || existsb is_opt_d opts /\
  xpm_image f' = xpm_image f || existsb is_opt_i opts /\
  tiling f' = tiling f || existsb is_opt_t opts.
Proof.
  revert f. induction opts as [| opt opts IH]; intros f H; simpl in H.
  - injection H as <-. simpl. rewrite !orb_false_r. repeat split.
  - destruct (set_option_accepted f opt) as [Hacc Hrej].
    destruct (accepted_option opt) eqn:Ea.
    + destruct (Hacc eq_refl) as (f1 & E & H1 & H2 & H3 & H4 & H5).
      rewrite E in H. destruct (IH f1 H) as (I0 & I1 & I2 & I3 & I4 & I5).
      cbn [forallb existsb]. rewrite Ea, I0, I1, I2, I3, I4, I5, H1, H2, H3, H4, H5.
      rewrite !orb_assoc. repeat split.
    + rewrite (Hrej eq_refl) in H. discriminate H.
Qed.

Lemma options_only_set_flags_witness :
  beep {| dont_fork := true; beep := true; dpms := false; xpm_image := false;
          tiling := true; curs_is_null := false |} =
  beep default_flags || existsb is_opt_b [opt_t; opt_b; opt_n; opt_b].
Proof.
  apply (options_only_set_flags [opt_t; opt_b; opt_n; opt_b] default_flags).
  reflexivity.
Defined.

(** X15.  The options are looked at in order up to the first one that
    is not accepted: [-v], an unknown option, or [-c] with an invalid
    colour.  That option ends the process, [-v] with status 0 and the
    others with status 1, whatever comes after it; when there is no
    such option the process goes on. *)
Theorem first_rejected_option_decides (pre post : list option_char)
    (opt : option_char) (f : flags) :
  forallb accepted_option pre = true ->
  (exists f' : flags, parse_options f pre = inr f') /\
  (accepted_option opt = false ->
   parse_options f (pre ++ opt :: post) = inl (rejected_status opt)).
Proof.
  revert f. induction pre as [| o pre IH]; intros f H.
  - split; [exists f; reflexivity |]. intros Hr. simpl.
    rewrite (proj2 (set_option_accepted f opt) Hr). reflexivity.
  - simpl in H. apply andb_prop in H as [Ho Hpre].
    destruct (proj1 (set_option_accepted f o) Ho) as (f1 & E & _).
    simpl. rewrite E. apply IH. exact Hpre.
Qed.

Lemma first_rejected_option_decides_witness :
  parse_options default_flags ([opt_b; opt_d] ++ opt_v :: [opt_unknown]) = inl 0.
Proof.
  apply (first_rejected_option_decides [opt_b; opt_d] [opt_unknown] opt_v
           default_flags); reflexivity.
Defined.

(** * Properties of the background colour *)

Lemma hex_digit_range (c v : Z) :
  hex_digit c = Some v ->
  (48 <= c <= 57 /\ v = c - 48) \/ (97 <= c <= 102 /\ v = c - 87) \/
  (65 <= c <= 70 /\ v = c - 55).
Proof.
  unfold hex_digit. intros Hd.
  destruct (Z.leb_spec 48 c) as [A1 | A1]; destruct (Z.leb_spec c 57) as [A2 | A2];
    simpl in Hd; try (injection Hd as <-; lia);
    destruct (Z.leb_spec 97 c) as [A3 | A3];
    destruct (Z.leb_spec c 102) as [A4 | A4];
    simpl in Hd; try (injection Hd as <-; lia);
    destruct (Z.leb_spec 65 c) as [A5 | A5];
    destruct (Z.leb_spec c 70) as [A6 | A6];
    simpl in Hd; try (injection Hd as <-; lia); discriminate Hd.
Qed.

Lemma hex_digit_spec (c v : Z) :
  hex_digit c = Some v ->
  0 <= v <= 15 /\ c <> 0 /\ isspace c = false /\
  (c =? 45) = false /\ (c =? 43) = false /\ isxdigit c = true.
Proof.
  intros Hd. apply hex_digit_range in Hd.
  split; [lia |]. split; [lia |].
  split; [| split; [apply Z.eqb_neq; lia | split; [apply Z.eqb_neq; lia |]]].
  - unfold isspace. apply orb_false_intro; [apply Z.eqb_neq; lia |].
    destruct (Z.leb_spec 9 c) as [B1 | B1]; [| reflexivity].
    destruct (Z.leb_spec c 13) as [B2 | B2]; [lia | reflexivity].
  - unfold isxdigit.
    destruct Hd as [[R _] | [[R _] | [R _]]].
    + rewrite (proj2 (Z.leb_le 48 c)), (proj2 (Z.leb_le c 57)) by lia. reflexivity.
    + rewrite (proj2 (Z.leb_le 97 c)), (proj2 (Z.leb_le c 102)) by lia.
      rewrite orb_true_r. reflexivity.
    + rewrite (proj2 (Z.leb_le 65 c)), (proj2 (Z.leb_le c 70)) by lia.
      rewrite orb_true_r. reflexivity.
Qed.

Lemma isxdigit_hex_digit (c : Z) :
  isxdigit c = true -> exists v : Z, hex_digit c = Some v.
Proof.
  unfold hex_digit, isxdigit.
  destruct ((48 <=? c) && (c <=? 57)); [eexists; reflexivity |].
  destruct ((97 <=? c) && (c <=? 102)); [eexists; reflexivity |].
  destruct ((65 <=? c) && (c <=? 70)); [eexists; reflexivity |].
  discriminate.
Qed.

Lemma strtol_one_digit (c v : Z) :
  hex_digit c = Some v -> strtol [c] = v.
Proof.
  intros H. destruct (hex_digit_spec c v H) as (_ & _ & Hs & Hm & Hp & _).
  unfold strtol. simpl. rewrite Hs, Hm, Hp. simpl. rewrite H. reflexivity.
Qed.

Lemma strtol_two_digits (c0 c1 v0 v1 : Z) :
  hex_digit c0 = Some v0 -> hex_digit c1 = Some v1 ->
  strtol (c_string [c0; c1]) = 16 * v0 + v1.
Proof.
  intros H0 H1.
  destruct (hex_digit_spec c0 v0 H0) as (_ & N0 & Hs & Hm & Hp & _).
  destruct (hex_digit_spec c1 v1 H1) as (_ & N1 & _).
  simpl. destruct (Z.eqb_spec c0 0); [contradiction |].
  destruct (Z.eqb_spec c1 0); [contradiction |].
  unfold strtol. simpl. rewrite Hs, Hm, Hp. simpl. rewrite H0, H1. lia.
Qed.

(** The pixel made of three values between 0 and 255. *)
Lemma pixel_of_bytes (r g b : Z) :
  0 <= r <= 255 -> 0 <= g <= 255 -> 0 <= b <= 255 ->
  u32 (u32 (u32 (Z.shiftl (u32 r) 16) + u32 (Z.shiftl (u32 g) 8)) + u32 b) =
    65536 * r + 256 * g + b.
Proof.
  intros Hr Hg Hb. rewrite !Z.shiftl_mul_pow2 by lia.
  change (2 ^ 16) with 65536. change (2 ^ 8) with 256.
  rewrite (u32_small r), (u32_small g), (u32_small b)
    by (change (2 ^ 32) with 4294967296; lia).
  rewrite (u32_small (r * 65536)), (u32_small (g * 256))
    by (change (2 ^ 32) with 4294967296; lia).
  rewrite (u32_small (r * 65536 + g * 256))
    by (change (2 ^ 32) with 4294967296; lia).
  rewrite u32_small by (change (2 ^ 32) with 4294967296; lia).
  lia.
Qed.

(** X16.  For a colour of six hexadecimal digits, in either case,
    [get_colorpixel] is the number that the six digits write in base
    16: red in the bits 16 to 23, green in the bits 8 to 15, blue in
    the bits 0 to 7, and nothing above. *)
Theorem get_colorpixel_of_six_digits (c0 c1 c2 c3 c4 c5 : Z) (rest : list Z)
    (v0 v1 v2 v3 v4 v5 : Z) :
  hex_digit c0 = Some v0 -> hex_digit c1 = Some v1 ->
  hex_digit c2 = Some v2 -> hex_digit c3 = Some v3 ->
  hex_digit c4 = Some v4 -> hex_digit c5 = Some v5 ->
  let pixel := get_colorpixel (c0 :: c1 :: c2 :: c3 :: c4 :: c5 :: rest) in
  pixel = 65536 * (16 * v0 + v1) + 256 * (16 * v2 + v3) + (16 * v4 + v5) /\
  0 <= pixel < 2 ^ 24 /\
  Z.land (Z.shiftr pixel 16) 255 = 16 * v0 + v1 /\
  Z.land (Z.shiftr pixel 8) 255 = 16 * v2 + v3 /\
  Z.land pixel 255 = 16 * v4 + v5.
Proof.
  intros H0 H1 H2 H3 H4 H5 pixel.
  pose proof (hex_digit_spec _ _ H0) as (B0 & _).
  pose proof (hex_digit_spec _ _ H1) as (B1 & _).
  pose proof (hex_digit_spec _ _ H2) as (B2 & _).
  pose proof (hex_digit_spec _ _ H3) as (B3 & _).
  pose proof (hex_digit_spec _ _ H4) as (B4 & _).
  pose proof (hex_digit_spec _ _ H5) as (B5 & _).
  assert (E : pixel = 65536 * (16 * v0 + v1) + 256 * (16 * v2 + v3) + (16 * v4 + v5)).
  { unfold pixel, get_colorpixel. cbn [nth Nat.mul Nat.add].
    rewrite (strtol_two_digits c0 c1 v0 v1 H0 H1).
    rewrite (strtol_two_digits c2 c3 v2 v3 H2 H3).
    rewrite (strtol_two_digits c4 c5 v4 v5 H4 H5).
    apply pixel_of_bytes; lia. }
  split; [exact E |]. rewrite E. clear E pixel.
  set (r := 16 * v0 + v1) in *. set (g := 16 * v2 + v3) in *.
  set (b := 16 * v4 + v5) in *.
  assert (Hr : 0 <= r <= 255) by (unfold r; lia).
  assert (Hg : 0 <= g <= 255) by (unfold g; lia).
  assert (Hb : 0 <= b <= 255) by (unfold b; lia).
  change (2 ^ 24) with 16777216. split; [lia |].
  rewrite !Z.shiftr_div_pow2 by lia.
  change 255 with (Z.ones 8). rewrite !Z.land_ones by lia.
  change (2 ^ 16) with 65536. change (2 ^ 8) with 256.
  repeat split.
  - replace (65536 * r + 256 * g + b) with (r * 65536 + (256 * g + b)) by lia.
    rewrite Z.div_add_l by lia.
    rewrite (Z.div_small (256 * g + b)) by lia.
    rewrite Z.add_0_r. apply Z.mod_small. lia.
  - replace (65536 * r + 256 * g + b) with ((256 * r + g) * 256 + b) by lia.
    rewrite Z.div_add_l by lia. rewrite (Z.div_small b) by lia.
    rewrite Z.add_0_r.
    replace (256 * r + g) with (g + r * 256) by lia.
    rewrite Z.mod_add by lia. apply Z.mod_small. lia.
  - replace (65536 * r + 256 * g + b) with (b + (256 * r + g) * 256) by lia.
    rewrite Z.mod_add by lia. apply Z.mod_small. lia.
Qed.

(** The colour [FF8000]. *)
Lemma get_colorpixel_of_six_digits_witness :
  get_colorpixel [70; 70; 56; 48; 48; 48; 0] = 0xff8000.
Proof.
  apply (get_colorpixel_of_six_digits 70 70 56 48 48 48 [0] 15 15 8 0 0 0);
    reflexivity.
Defined.

Lemma hex_prefix_xdigit (n : nat) :
  forall s : list Z,
    Forall (fun c => isxdigit c = true) (hex_prefix n s) /\
    (length (hex_prefix n s) <= n)%nat.
Proof.
  induction n as [| n IH]; intros s; simpl.
  - split; [constructor | lia].
  - destruct s as [| c s]; simpl; [split; [constructor | lia] |].
    destruct (isxdigit c) eqn:E; simpl; [| split; [constructor | lia]].
    destruct (IH s) as [H1 H2]. split; [constructor; assumption | lia].
Qed.

(** The test that [main] makes on the argument of [-c] agrees with the
    one of [color_is_invalid]. *)
Lemma color_is_invalid_sscanf (optarg color : list Z) :
  let arg := match optarg with
             | 35 :: arg' => arg'
             | _ => optarg
             end in
  color_is_invalid optarg =
    negb (length (c_string arg) =? 6)%nat ||
    negb (fst (sscanf_color arg color) =? 1).
Proof.
  intros arg. unfold color_is_invalid. fold arg.
  destruct (length (c_string arg) =? 6)%nat eqn:El; [| reflexivity].
  simpl. unfold sscanf_color.
  destruct arg as [| c arg']; [discriminate El |].
  simpl in *. destruct (c =? 0); [discriminate El |].
  destruct (isxdigit c); reflexivity.
Qed.

Lemma sscanf_color_ok (arg color : list Z) :
  color_ok color -> color_ok (snd (sscanf_color arg color)).
Proof.
  intros [Hl Hf]. unfold sscanf_color.
  destruct (c_string arg) as [| c s] eqn:E; [split; assumption |].
  destruct (isxdigit c); [| split; assumption]. cbn [snd].
  destruct (hex_prefix_xdigit 6 (c :: s)) as [Hx Hn].
  split; [rewrite length_inserts; exact Hl |].
  apply Forall_lookup. intros i x Hi.
  apply list_lookup_inserts_Some in Hi as [[_ Hi] | [_ Hi]].
  - exact (proj1 (Forall_lookup _ _) Hf _ _ Hi).
  - destruct Hi as [_ Hi].
    apply lookup_app_Some in Hi as [Hi | [_ Hi]].
    + left. exact (proj1 (Forall_lookup _ _) Hx _ _ Hi).
    + right. destruct (i - 0 - length (hex_prefix 6 (c :: s)))%nat;
        [injection Hi as <-; reflexivity | discriminate Hi].
Qed.

Lemma parse_color_ok (opts : list option_char) :
  forall color : list Z, color_ok color -> color_ok (parse_color color opts).
Proof.
  induction opts as [| opt opts IH]; intros color H; [exact H |].
  destruct opt; simpl; try exact H; try (apply IH; exact H).
  match goal with
  | |- context [negb (length (c_string ?a) =? 6)%nat] =>
      destruct (negb (length (c_string a) =? 6)%nat); [exact H |];
      pose proof (sscanf_color_ok a color H) as Hs;
      destruct (sscanf_color a color) as [r color']
  end.
  cbn [snd] in Hs. destruct (negb (r =? 1)); [exact Hs | apply IH; exact Hs].
Qed.

Lemma strtol_group_bound (c0 c1 : Z) :
  isxdigit c0 = true \/ c0 = 0 -> isxdigit c1 = true \/ c1 = 0 ->
  0 <= strtol (c_string [c0; c1]) <= 255.
Proof.
  intros [H0 | ->] H1; [| simpl; unfold strtol; simpl; lia].
  destruct (isxdigit_hex_digit c0 H0) as [v0 E0].
  destruct (hex_digit_spec c0 v0 E0) as (B0 & N0 & _).
  destruct H1 as [H1 | ->].
  - destruct (isxdigit_hex_digit c1 H1) as [v1 E1].
    destruct (hex_digit_spec c1 v1 E1) as (B1 & _).
    rewrite (strtol_two_digits c0 c1 v0 v1 E0 E1). lia.
  - simpl. destruct (Z.eqb_spec c0 0); [contradiction |].
    rewrite (strtol_one_digit c0 v0 E0). lia.
Qed.

(** X17.  Whatever the command line is, the colour that [main] hands
    to [get_colorpixel] consists of hexadecimal digits and zero bytes,
    and the pixel made of it is below [2^24]: an argument of [-c] that
    passes the test with characters that are no digits does not reach
    [strtol], and no sign or prefix can make a channel exceed 255. *)
Theorem background_pixel_is_rgb (w : world) :
  color_ok (parse_color color_init (getopt_long w)) /\
  0 <= background_pixel w < 2 ^ 24.
Proof.
  assert (Hinit : color_ok color_init).
  { split; [reflexivity |].
    unfold color_init. repeat constructor; (left; reflexivity) || (right; reflexivity). }
  pose proof (parse_color_ok (getopt_long w) color_init Hinit) as Hok.
  split; [exact Hok |]. unfold background_pixel.
  destruct Hok as [Hl Hf].
  destruct (parse_color color_init (getopt_long w))
    as [| c0 [| c1 [| c2 [| c3 [| c4 [| c5 [| c6 [| c7 r]]]]]]]];
    try discriminate Hl.
  apply Forall_cons in Hf as [H0 Hf]. apply Forall_cons in Hf as [H1 Hf].
  apply Forall_cons in Hf as [H2 Hf]. apply Forall_cons in Hf as [H3 Hf].
  apply Forall_cons in Hf as [H4 Hf]. apply Forall_cons in Hf as [H5 Hf].
  unfold get_colorpixel. cbn [nth Nat.mul Nat.add].
  pose proof (strtol_group_bound c0 c1 H0 H1) as B0.
  pose proof (strtol_group_bound c2 c3 H2 H3) as B1.
  pose proof (strtol_group_bound c4 c5 H4 H5) as B2.
  rewrite pixel_of_bytes by assumption.
  change (2 ^ 24) with 16777216. lia.
Qed.

(** X18.  An argument of [-c] that is six hexadecimal digits, with or
    without a [#] before them, is accepted, and [color] is then exactly
    these six digits. *)
Theorem color_option_sets_color (color digits optarg : list Z)
    (opts : list option_char) :
  length color = 7%nat -> length digits = 6%nat ->
  Forall (fun c => isxdigit c = true) digits ->
  optarg = digits \/ optarg = 35 :: digits ->
  accepted_option (opt_c optarg) = true /\
  parse_color color (opt_c optarg :: opts) = parse_color (digits ++ [0]) opts.
Proof.
  intros Hc Hd Hx Ho.
  destruct digits as [| d0 [| d1 [| d2 [| d3 [| d4 [| d5 [| d6 r]]]]]]];
    try discriminate Hd.
  destruct color as [| k0 [| k1 [| k2 [| k3 [| k4 [| k5 [| k6 [| k7 r]]]]]]]];
    try discriminate Hc.
  apply Forall_cons in Hx as [X0 Hx]. apply Forall_cons in Hx as [X1 Hx].
  apply Forall_cons in Hx as [X2 Hx]. apply Forall_cons in Hx as [X3 Hx].
  apply Forall_cons in Hx as [X4 Hx]. apply Forall_cons in Hx as [X5 _].
  assert (Hz : forall c : Z, isxdigit c = true -> (c =? 0) = false /\ c <> 35).
  { intros c H. destruct (isxdigit_hex_digit c H) as [v E].
    apply hex_digit_range in E. split; [apply Z.eqb_neq |]; lia. }
  destruct (Hz d0 X0) as [Z0 N0]. destruct (Hz d1 X1) as [Z1 _].
  destruct (Hz d2 X2) as [Z2 _]. destruct (Hz d3 X3) as [Z3 _].
  destruct (Hz d4 X4) as [Z4 _]. destruct (Hz d5 X5) as [Z5 _].
  assert (Harg : match optarg with
                 | 35 :: arg' => arg'
                 | _ => optarg
                 end = [d0; d1; d2; d3; d4; d5]).
  { destruct Ho as [-> | ->]; [| reflexivity].
    destruct d0 as [| p | p]; try reflexivity.
    do 6 (destruct p as [p | p |]; try reflexivity). contradiction. }
  split.
  - unfold accepted_option, color_is_invalid. rewrite Harg. simpl.
    rewrite Z0, Z1, Z2, Z3, Z4, Z5, X0. reflexivity.
  - cbn [parse_color]. rewrite Harg. unfold sscanf_color. simpl.
    rewrite Z0, Z1, Z2, Z3, Z4, Z5. simpl.
    rewrite X0, X1, X2, X3, X4, X5. reflexivity.
Qed.

(** The argument [#ff8000]. *)
Lemma color_option_sets_color_witness :
  parse_color color_init [opt_c [35; 102; 102; 56; 48; 48; 48]; opt_b] =
    [102; 102; 56; 48; 48; 48; 0].
Proof.
  apply (color_option_sets_color color_init [102; 102; 56; 48; 48; 48]
           [35; 102; 102; 56; 48; 48; 48] [opt_b]).
  - reflexivity.
  - reflexivity.
  - repeat constructor.
  - right. reflexivity.
Defined.
